(** * Vendors core: records, search/sort strategies, view state, store,
      commands and undo/redo history

    A shallow embedding of [public/js/vendors-core.js] (lines 1-351): the
    search and sort strategy classes, [VendorAppState], [VendorDataStore],
    the three command classes and [CommandHistory].

    Conventions of the embedding.
    - A record (a plain JS object holding scalar fields) is a finite map
      from field names to JS primitive values; reading an absent field
      gives [undefined].  The store never mutates a record object in place
      ([updateVendor] builds a fresh object by spreading), so records are
      values.
    - JS numbers are [NaN], the two infinities and the integer-valued
      finite numbers (identity keys, counts, millisecond timestamps);
      [-0] is identified with [+0].
    - The built-ins whose result depends on the engine or on Unicode and
      locale tables ([String.prototype.toLowerCase], [localeCompare],
      [Date.parse], [RegExp], number/string conversion) are fields of the
      class [Host]; every definition and theorem is generic in the host.
    - An observer is a callback.  Calling it either returns or throws; what
      it does to the outside world is recorded as an entry of the effect
      trace.  Observers do not call back into the object that notifies
      them.
    - Methods are functions in a state, trace and exception monad [M]: a
      call returns its outcome ([Ok] or [Throw]), the object's state after
      the call (mutations made before a throw stay), and the observer
      calls and console output it caused. *)

From stdpp Require Import base option list gmap strings pretty sorting.
From Stdlib Require Import ZArith Lia Ascii DecimalString.

Local Open Scope string_scope.
Local Open Scope list_scope.

(** ** JS primitive values *)

Inductive num : Type :=
  | NaN
  | Inf (negative : bool)
  | Fin (z : Z).

Inductive value : Type :=
  | VUndef
  | VNull
  | VBool (b : bool)
  | VNum (n : num)
  | VStr (s : string).

#[global] Instance num_eq_dec : EqDecision num.
Proof. solve_decision. Defined.

#[global] Instance value_eq_dec : EqDecision value.
Proof. solve_decision. Defined.

Abbreviation record := (gmap string value).

(** [item[column]] *)
Definition get_field (item : record) (column : string) : value :=
  default VUndef (item !! column).

(** [{ ...a, ...b }]: the fields of [b] override those of [a]. *)
Definition spread (a b : record) : record := b ∪ a.

(** [a === b] *)
Definition strict_eq (a b : value) : bool :=
  match a, b with
  | VUndef, VUndef => true
  | VNull, VNull => true
  | VBool x, VBool y => bool_decide (x = y)
  | VNum NaN, VNum _ => false
  | VNum _, VNum NaN => false
  | VNum x, VNum y => bool_decide (x = y)
  | VStr x, VStr y => bool_decide (x = y)
  | _, _ => false
  end.

(** ToBoolean *)
Definition truthy (v : value) : bool :=
  match v with
  | VUndef | VNull => false
  | VBool b => b
  | VNum NaN => false
  | VNum (Fin 0) => false
  | VNum _ => true
  | VStr "" => false
  | VStr _ => true
  end.

(** [a || b] *)
Definition js_or (a b : value) : value := if truthy a then a else b.

(** Unary minus and binary minus on numbers. *)
Definition num_neg (x : num) : num :=
  match x with
  | NaN => NaN
  | Inf s => Inf (negb s)
  | Fin z => Fin (- z)%Z
  end.

Definition num_sub (x y : num) : num :=
  match x, y with
  | NaN, _ | _, NaN => NaN
  | Inf s, Inf t => if bool_decide (s = t) then NaN else Inf s
  | Inf s, Fin _ => Inf s
  | Fin _, Inf t => Inf (negb t)
  | Fin a, Fin b => Fin (a - b)%Z
  end.

(** ** Host built-ins *)

Class Host : Type := {
  (** Number::toString on a finite number *)
  number_to_string : Z -> string;
  (** StringToNumber *)
  string_to_number : string -> num;
  (** String.prototype.toLowerCase *)
  toLowerCase : string -> string;
  (** String.prototype.localeCompare: negative, zero or positive *)
  localeCompare : string -> string -> Z;
  (** Date.parse: [NaN] when the string is not a date *)
  date_parse : string -> num;
  (** [new RegExp(pattern, 'i').test(subject)]; [None] when the
      constructor throws a SyntaxError *)
  regexp_test_i : string -> string -> option bool
}.

Section Strategies.
Context `{Host}.

(** [String(v)] *)
Definition to_string (v : value) : string :=
  match v with
  | VUndef => "undefined"
  | VNull => "null"
  | VBool true => "true"
  | VBool false => "false"
  | VNum NaN => "NaN"
  | VNum (Inf false) => "Infinity"
  | VNum (Inf true) => "-Infinity"
  | VNum (Fin z) => number_to_string z
  | VStr s => s
  end.

(** [Number(v)] *)
Definition to_number (v : value) : num :=
  match v with
  | VUndef => NaN
  | VNull => Fin 0
  | VBool true => Fin 1
  | VBool false => Fin 0
  | VNum n => n
  | VStr s => string_to_number s
  end.

(** TimeClip: a time value is an integer of magnitude at most 8.64e15. *)
Definition time_clip (n : num) : num :=
  match n with
  | Fin z => if bool_decide (Z.abs z <= 8640000000000000)%Z then Fin z else NaN
  | _ => NaN
  end.

(** [new Date(v).getTime()] for a primitive [v] *)
Definition date_getTime (v : value) : num :=
  match v with
  | VStr s => date_parse s
  | _ => time_clip (to_number v)
  end.

(** [s.includes(t)] *)
Fixpoint includes (s t : string) : bool :=
  String.prefix t s ||
  match s with
  | EmptyString => false
  | String _ s' => includes s' t
  end.

(** *** Search strategies (lines 10-43)

    The four concrete subclasses; the abstract base class, whose [match]
    only throws, is never the active strategy of a view. *)

Inductive SearchStrategy : Type :=
  | ExactSearchStrategy
  | PartialSearchStrategy
  | CaseInsensitiveSearchStrategy
  | RegexSearchStrategy.

(** the pattern source [new RegExp(searchTerm, 'i')] compiles *)
Definition regexp_source (searchTerm : value) : string :=
  match searchTerm with
  | VUndef => ""
  | _ => to_string searchTerm
  end.

Definition search_match (strategy : SearchStrategy) (v searchTerm : value) : bool :=
  match strategy with
  | ExactSearchStrategy =>
      bool_decide (to_string v = to_string searchTerm)
  | PartialSearchStrategy =>
      includes (toLowerCase (to_string v)) (toLowerCase (to_string searchTerm))
  | CaseInsensitiveSearchStrategy =>
      bool_decide (toLowerCase (to_string v) = toLowerCase (to_string searchTerm))
  | RegexSearchStrategy =>
      match regexp_test_i (regexp_source searchTerm) (to_string v) with
      | Some b => b
      | None => false
      end
  end.

(** *** Array.prototype.sort

    The comparator's result is read by its sign, [NaN] counting as [+0]
    (SortCompare).  The sort itself is the stable insertion sort.  On a
    consistent comparator the stable sort of a list is unique
    ([stable_sort_unique] below), so every conforming engine returns this
    list; on an inconsistent one the engine's order is
    implementation-defined and this is one of the permitted results. *)

Definition sort_sign (v : num) : comparison :=
  match v with
  | NaN => Eq
  | Inf false => Gt
  | Inf true => Lt
  | Fin z => Z.compare z 0
  end.

Section ArraySort.
Context {A : Type} (comparefn : A -> A -> num).

Fixpoint sorted_insert (x : A) (l : list A) : list A :=
  match l with
  | [] => [x]
  | y :: l' =>
      match sort_sign (comparefn x y) with
      | Gt => y :: sorted_insert x l'
      | _ => x :: y :: l'
      end
  end.

Fixpoint array_sort (l : list A) : list A :=
  match l with
  | [] => []
  | x :: l' => sorted_insert x (array_sort l')
  end.

End ArraySort.

(** *** Sort strategies (lines 46-83)

    The three concrete subclasses.  The direction is ['asc'] or ['desc'],
    the only values [VendorAppState] ever assigns to [sortDirection]. *)

Inductive direction : Type := asc | desc.

#[global] Instance direction_eq_dec : EqDecision direction.
Proof. solve_decision. Defined.

Inductive SortStrategy : Type :=
  | AlphabeticSortStrategy
  | NumericSortStrategy
  | DateSortStrategy.

(** [direction === 'asc' ? comparison : -comparison] *)
Definition directed (d : direction) (comparison : num) : num :=
  match d with
  | asc => comparison
  | desc => num_neg comparison
  end.

(** the value each strategy's comparator computes for one record
    ([aVal], [bVal]) *)
Definition alphabetic_val (column : string) (a : record) : string :=
  toLowerCase (to_string (js_or (get_field a column) (VStr ""))).

Definition numeric_val (column : string) (a : record) : num :=
  let n := to_number (get_field a column) in
  if truthy (VNum n) then n else Fin 0.

Definition date_val (column : string) (a : record) : num :=
  date_getTime (js_or (get_field a column) (VNum (Fin 0))).

(** [comparison] *)
Definition comparison_of (strategy : SortStrategy) (column : string)
    (a b : record) : num :=
  match strategy with
  | AlphabeticSortStrategy =>
      Fin (localeCompare (alphabetic_val column a) (alphabetic_val column b))
  | NumericSortStrategy =>
      num_sub (numeric_val column a) (numeric_val column b)
  | DateSortStrategy =>
      num_sub (date_val column a) (date_val column b)
  end.

(** the arrow function passed to [sort] *)
Definition comparator (strategy : SortStrategy) (column : string)
    (d : direction) (a b : record) : num :=
  directed d (comparison_of strategy column a b).

(** [strategy.sort(data, column, direction)] *)
Definition strategy_sort (strategy : SortStrategy) (data : list record)
    (column : string) (d : direction) : list record :=
  array_sort (comparator strategy column d) data.

End Strategies.

(** ** Observers, effects and the method monad *)

Inductive js_error : Type := Error (message : string).

(** the second argument of an observer call *)
Inductive payload : Type :=
  | PArray (records : list record)
  | PVendor (vendor : record)
  | PData (data : list record)
  | PColumns (columns : list string)
  | PFilters (filters : list (string * value))
  | PSort (column : string) (d : direction).

(** A subscribed callback: [observer_id] stands for the identity of the
    function object, [observer_call] for its behaviour ([Some e]: it
    throws [e]). *)
Record observer : Type := {
  observer_id : nat;
  observer_call : string -> payload -> option js_error
}.

Inductive effect : Type :=
  | Called (id : nat) (event : string) (data : payload)
  | ConsoleError (label : string) (error : js_error).

Inductive outcome (A : Type) : Type :=
  | Ok (a : A)
  | Throw (e : js_error).
Arguments Ok {A} a.
Arguments Throw {A} e.

Definition M (S A : Type) : Type := S -> outcome A * S * list effect.

#[global] Instance M_ret {S} : MRet (M S) :=
  fun A a s => (Ok a, s, []).

#[global] Instance M_bind {S} : MBind (M S) :=
  fun A B k m s =>
    match m s with
    | (Ok a, s1, t1) =>
        match k a s1 with
        | (r, s2, t2) => (r, s2, t1 ++ t2)
        end
    | (Throw e, s1, t1) => (Throw e, s1, t1)
    end.

Definition get {S} : M S S := fun s => (Ok s, s, []).
Definition modify {S} (f : S -> S) : M S unit := fun s => (Ok tt, f s, []).
Definition tell {S} (t : list effect) : M S unit := fun s => (Ok tt, s, t).
Definition throw {S A} (e : js_error) : M S A := fun s => (Throw e, s, []).

(** [try { m } catch (error) { handler error }] *)
Definition try_catch {S A} (m : M S A) (handler : js_error -> M S A) : M S A :=
  fun s =>
    match m s with
    | (Ok a, s1, t1) => (Ok a, s1, t1)
    | (Throw e, s1, t1) =>
        match handler e s1 with
        | (r, s2, t2) => (r, s2, t1 ++ t2)
        end
    end.

(** [xs.forEach(body)] *)
Fixpoint forEach {S A} (xs : list A) (body : A -> M S unit) : M S unit :=
  match xs with
  | [] => mret tt
  | x :: xs' => body x ;; forEach xs' body
  end.

(** [observer(event, data)] *)
Definition call_observer {S} (o : observer) (event : string) (data : payload)
    : M S unit :=
  tell [Called (observer_id o) event data] ;;
  match observer_call o event data with
  | Some e => throw e
  | None => mret tt
  end.

(** [observers.add(observer)] and [observers.delete(observer)] on a [Set]
    kept in insertion order *)
Definition set_add (o : observer) (observers : list observer) : list observer :=
  if bool_decide (observer_id o ∈ observer_id <$> observers)
  then observers else observers ++ [o].

Definition set_delete (o : observer) (observers : list observer) : list observer :=
  List.filter (fun o' => negb (bool_decide (observer_id o' = observer_id o)))
    observers.

(** [Map.prototype.set] and [Map.prototype.delete] on a [Map] kept in
    insertion order *)
Fixpoint map_set (k : string) (v : value) (m : list (string * value))
    : list (string * value) :=
  match m with
  | [] => [(k, v)]
  | (k', v') :: m' =>
      if bool_decide (k' = k) then (k, v) :: m' else (k', v') :: map_set k v m'
  end.

Definition map_delete (k : string) (m : list (string * value))
    : list (string * value) :=
  List.filter (fun kv => negb (bool_decide (kv.1 = k))) m.

(** ** VendorAppState (lines 86-194): the reactive view *)

Module VendorAppState.

Record t : Type := mk {
  data : list record;
  filteredData : list record;
  columns : list string;
  primaryKey : string;
  sortColumn : option string;          (* [None] is [null] *)
  sortDirection : direction;
  searchFilters : list (string * value);
  observers : list observer;
  searchStrategy : SearchStrategy;
  sortStrategy : SortStrategy
}.

(** the constructor's first run *)
Definition new : t :=
  {| data := []; filteredData := []; columns := []; primaryKey := "id";
     sortColumn := None; sortDirection := asc; searchFilters := [];
     observers := []; searchStrategy := PartialSearchStrategy;
     sortStrategy := AlphabeticSortStrategy |}.

Definition with_data (x : list record) (s : t) : t :=
  mk x (filteredData s) (columns s) (primaryKey s) (sortColumn s)
     (sortDirection s) (searchFilters s) (observers s) (searchStrategy s)
     (sortStrategy s).
Definition with_filteredData (x : list record) (s : t) : t :=
  mk (data s) x (columns s) (primaryKey s) (sortColumn s)
     (sortDirection s) (searchFilters s) (observers s) (searchStrategy s)
     (sortStrategy s).
Definition with_columns (x : list string) (s : t) : t :=
  mk (data s) (filteredData s) x (primaryKey s) (sortColumn s)
     (sortDirection s) (searchFilters s) (observers s) (searchStrategy s)
     (sortStrategy s).
Definition with_sortColumn (x : option string) (s : t) : t :=
  mk (data s) (filteredData s) (columns s) (primaryKey s) x
     (sortDirection s) (searchFilters s) (observers s) (searchStrategy s)
     (sortStrategy s).
Definition with_sortDirection (x : direction) (s : t) : t :=
  mk (data s) (filteredData s) (columns s) (primaryKey s) (sortColumn s)
     x (searchFilters s) (observers s) (searchStrategy s) (sortStrategy s).
Definition with_searchFilters (x : list (string * value)) (s : t) : t :=
  mk (data s) (filteredData s) (columns s) (primaryKey s) (sortColumn s)
     (sortDirection s) x (observers s) (searchStrategy s) (sortStrategy s).
Definition with_observers (x : list observer) (s : t) : t :=
  mk (data s) (filteredData s) (columns s) (primaryKey s) (sortColumn s)
     (sortDirection s) (searchFilters s) x (searchStrategy s) (sortStrategy s).

Section Methods.
Context `{Host}.

Definition subscribe (o : observer) : M t unit :=
  modify (fun s => with_observers (set_add o (observers s)) s).

(** the function [subscribe] returns *)
Definition unsubscribe (o : observer) : M t unit :=
  modify (fun s => with_observers (set_delete o (observers s)) s).

Definition notify (event : string) (d : payload) : M t unit :=
  s ← get;
  forEach (observers s) (fun o =>
    try_catch (call_observer o event d)
      (fun error => tell [ConsoleError "Observer error:" error])).

(** the callback of [this.data.filter] *)
Definition passes (s : t) (item : record) : bool :=
  forallb (fun '(column, searchTerm) =>
             search_match (searchStrategy s) (get_field item column) searchTerm)
    (searchFilters s).

(** [if (this.sortColumn)] *)
Definition sort_active (s : t) : bool :=
  match sortColumn s with
  | Some column => truthy (VStr column)
  | None => false
  end.

Definition applyFiltersAndSort : M t unit :=
  modify (fun s =>
    let filtered := List.filter (passes s) (data s) in
    let filtered :=
      match sortColumn s with
      | Some column =>
          if truthy (VStr column)
          then strategy_sort (sortStrategy s) filtered column (sortDirection s)
          else filtered
      | None => filtered
      end in
    with_filteredData filtered s).

Definition setData (d : list record) : M t unit :=
  modify (with_data d) ;;
  applyFiltersAndSort ;;
  s ← get;
  notify "dataChanged" (PData (filteredData s)).

Definition setColumns (c : list string) : M t unit :=
  modify (with_columns c) ;;
  notify "columnsChanged" (PColumns c).

Definition setSearchFilter (column : string) (v : value) : M t unit :=
  (if truthy v
   then modify (fun s => with_searchFilters (map_set column v (searchFilters s)) s)
   else modify (fun s => with_searchFilters (map_delete column (searchFilters s)) s)) ;;
  applyFiltersAndSort ;;
  s ← get;
  notify "filtersChanged" (PFilters (searchFilters s)).

Definition setSortColumn (column : string) : M t unit :=
  s ← get;
  (if bool_decide (sortColumn s = Some column)
   then modify (with_sortDirection
                  (if bool_decide (sortDirection s = asc) then desc else asc))
   else modify (with_sortColumn (Some column)) ;;
        modify (with_sortDirection asc)) ;;
  applyFiltersAndSort ;;
  s ← get;
  notify "sortChanged" (PSort column (sortDirection s)).

Definition getFilteredData : M t (list record) :=
  s ← get; mret (filteredData s).



End Methods.
End VendorAppState.

(** ** VendorDataStore (lines 197-252) *)

Module VendorDataStore.

Record t : Type := mk {
  data : list record;
  columns : list string;
  primaryKey : string;
  observers : list observer
}.

Definition new : t :=
  {| data := []; columns := []; primaryKey := "id"; observers := [] |}.

Definition with_data (x : list record) (s : t) : t :=
  mk x (columns s) (primaryKey s) (observers s).
Definition with_observers (x : list observer) (s : t) : t :=
  mk (data s) (columns s) (primaryKey s) x.

(** [v => v[this.primaryKey] === id] *)
Definition has_key (s : t) (id : value) (v : record) : Prop :=
  strict_eq (get_field v (primaryKey s)) id = true.

#[global] Instance has_key_dec s id v : Decision (has_key s id v).
Proof. unfold has_key. apply _. Defined.

(** [this.data.findIndex(...)] together with the element found;
    [None] is index [-1] *)
Definition find (s : t) (id : value) : option (nat * record) :=
  list_find (has_key s id) (data s).

Definition subscribe (o : observer) : M t unit :=
  modify (fun s => with_observers (set_add o (observers s)) s).

Definition unsubscribe (o : observer) : M t unit :=
  modify (fun s => with_observers (set_delete o (observers s)) s).

Definition notifyObservers (event : string) (d : payload) : M t unit :=
  s ← get;
  forEach (observers s) (fun o => call_observer o event d).

Definition setData (d : list record) : M t unit :=
  modify (with_data d) ;;
  s ← get;
  notifyObservers "dataLoaded" (PArray (data s)).

Definition addVendor (vendor : record) : M t record :=
  modify (fun s => with_data (data s ++ [vendor]) s) ;;
  notifyObservers "vendorAdded" (PVendor vendor) ;;
  mret vendor.

(** [None] is the [null] the method returns on a miss *)
Definition updateVendor (id : value) (updates : record) : M t (option record) :=
  s ← get;
  match find s id with
  | Some (index, old) =>
      let updated := spread old updates in
      modify (with_data (<[index := updated]> (data s))) ;;
      notifyObservers "vendorUpdated" (PVendor updated) ;;
      mret (Some updated)
  | None => mret None
  end.

Definition deleteVendor (id : value) : M t (option record) :=
  s ← get;
  match find s id with
  | Some (index, deleted) =>
      modify (with_data (delete index (data s))) ;;
      notifyObservers "vendorDeleted" (PVendor deleted) ;;
      mret (Some deleted)
  | None => mret None
  end.

(** [None] is [undefined] *)
Definition getVendor (id : value) : M t (option record) :=
  s ← get; mret (snd <$> find s id).

Definition getAllVendors : M t (list record) :=
  s ← get; mret (data s).

End VendorDataStore.

(** ** Commands (lines 255-314)

    A command object is bound to the store it was constructed with; its
    methods run in that store's monad.  [execute] returns the command
    object as the call leaves it ([previousState] and [deletedVendor] are
    assigned there); [None] in these two fields is [null] or
    [undefined]. *)

Inductive Command : Type :=
  | AddVendorCommand (vendor : record)
  | UpdateVendorCommand (id : value) (updates : record)
      (previousState : option record)
  | DeleteVendorCommand (id : value) (deletedVendor : option record).

Definition execute (c : Command) : M VendorDataStore.t Command :=
  match c with
  | AddVendorCommand vendor =>
      VendorDataStore.addVendor vendor ;;
      mret (AddVendorCommand vendor)
  | UpdateVendorCommand id updates _ =>
      previousState ← VendorDataStore.getVendor id;
      VendorDataStore.updateVendor id updates ;;
      mret (UpdateVendorCommand id updates previousState)
  | DeleteVendorCommand id _ =>
      deletedVendor ← VendorDataStore.deleteVendor id;
      mret (DeleteVendorCommand id deletedVendor)
  end.

Definition undo (c : Command) : M VendorDataStore.t unit :=
  match c with
  | AddVendorCommand vendor =>
      s ← get;
      VendorDataStore.deleteVendor
        (get_field vendor (VendorDataStore.primaryKey s)) ;;
      mret tt
  | UpdateVendorCommand id _ previousState =>
      match previousState with
      | Some previous => VendorDataStore.updateVendor id previous ;; mret tt
      | None => mret tt
      end
  | DeleteVendorCommand _ deletedVendor =>
      match deletedVendor with
      | Some vendor => VendorDataStore.addVendor vendor ;; mret tt
      | None => mret tt
      end
  end.

(** ** CommandHistory (lines 316-351)

    The two stacks are arrays: [push] appends, [pop] takes the last
    element.  The history's methods act on the history and on the store
    its commands are bound to. *)

Module CommandHistory.

Record t : Type := mk {
  undoStack : list Command;
  redoStack : list Command
}.

Definition new : t := {| undoStack := []; redoStack := [] |}.

Definition state : Type := t * VendorDataStore.t.

(** run a store method from a history method *)
Definition on_store {A} (m : M VendorDataStore.t A) : M state A :=
  fun '(h, s) =>
    match m s with
    | (r, s', tr) => (r, (h, s'), tr)
    end.

Definition with_undoStack (x : list Command) : M state unit :=
  modify (fun '(h, s) => (mk x (redoStack h), s)).
Definition with_redoStack (x : list Command) : M state unit :=
  modify (fun '(h, s) => (mk (undoStack h) x, s)).

Definition executeCommand (command : Command) : M state unit :=
  command' ← on_store (execute command);
  '(h, _) ← get;
  with_undoStack (undoStack h ++ [command']) ;;
  with_redoStack [].

Definition undo : M state unit :=
  '(h, _) ← get;
  with_undoStack (removelast (undoStack h)) ;;
  match last (undoStack h) with
  | Some command =>
      on_store (undo command) ;;
      '(h, _) ← get;
      with_redoStack (redoStack h ++ [command])
  | None => mret tt
  end.

Definition redo : M state unit :=
  '(h, _) ← get;
  with_redoStack (removelast (redoStack h)) ;;
  match last (redoStack h) with
  | Some command =>
      command' ← on_store (execute command);
      '(h, _) ← get;
      with_undoStack (undoStack h ++ [command'])
  | None => mret tt
  end.

Definition canUndo : M state bool :=
  '(h, _) ← get; mret (negb (bool_decide (length (undoStack h) = 0%nat))).

Definition canRedo : M state bool :=
  '(h, _) ← get; mret (negb (bool_decide (length (redoStack h) = 0%nat))).

End CommandHistory.

(** ** A small host

    Used to run the definitions on examples: ASCII case folding, code-unit
    order for [localeCompare], decimal integer literals, no date strings,
    and patterns that are plain text. *)

Definition ascii_lower (c : ascii) : ascii :=
  let n := nat_of_ascii c in
  if (65 <=? n)%nat && (n <=? 90)%nat then ascii_of_nat (n + 32) else c.

Fixpoint string_lower (s : string) : string :=
  match s with
  | EmptyString => EmptyString
  | String c s' => String (ascii_lower c) (string_lower s')
  end.

Definition decimal_number (s : string) : num :=
  if bool_decide (s = "") then Fin 0
  else match NilZero.int_of_string s with
       | Some i => Fin (Z.of_int i)
       | None => NaN
       end.

Definition code_unit_compare (s t : string) : Z :=
  match String.compare s t with
  | Lt => (-1)%Z
  | Eq => 0%Z
  | Gt => 1%Z
  end.

Definition ascii_host : Host :=
  {| number_to_string := pretty;
     string_to_number := decimal_number;
     toLowerCase := string_lower;
     localeCompare := code_unit_compare;
     date_parse := fun _ => NaN;
     regexp_test_i := fun pattern subject =>
       Some (includes (string_lower subject) (string_lower pattern)) |}.

(** Reading the three components of a method call's result. *)
Definition outcome_of {S A} (r : outcome A * S * list effect) : outcome A := r.1.1.
Definition state_of {S A} (r : outcome A * S * list effect) : S := r.1.2.
Definition trace_of {S A} (r : outcome A * S * list effect) : list effect := r.2.

(** Records of the examples. *)
Definition vendor (id : Z) (name : string) : record :=
  {[ "id" := VNum (Fin id); "name" := VStr name ]}.

(** The chronological sort key in the specification's words ("coerces
    field value to a timestamp (unparsable/absent => epoch zero)"), to be
    compared with [date_val], the key the code computes. *)
Definition chronological_key_spec `{Host} (column : string) (a : record) : num :=
  match date_val column a with
  | NaN => Fin 0
  | n => n
  end.

Definition chronological_sort_spec `{Host} (data : list record)
    (column : string) (d : direction) : list record :=
  array_sort (fun a b => directed d (num_sub (chronological_key_spec column a)
                                             (chronological_key_spec column b)))
    data.

(** ** Derived notions used in the statements *)

(** What a notifier that catches and logs delivers: every observer is
    called, a throw is followed by the console entry. *)
Definition caught_trace (observers : list observer) (event : string)
    (d : payload) : list effect :=
  flat_map (fun o =>
    Called (observer_id o) event d ::
    match observer_call o event d with
    | Some e => [ConsoleError "Observer error:" e]
    | None => []
    end) observers.

(** What a bare [forEach] over the observers delivers: it stops at the
    first observer that throws. *)
Fixpoint fan_out (observers : list observer) (event : string) (d : payload)
    : outcome unit * list effect :=
  match observers with
  | [] => (Ok tt, [])
  | o :: os =>
      match observer_call o event d with
      | Some e => (Throw e, [Called (observer_id o) event d])
      | None =>
          (fst (fan_out os event d),
           Called (observer_id o) event d :: snd (fan_out os event d))
      end
  end.

(** The identity keys of a sequence of records, in order. *)
Definition keys (primaryKey : string) (data : list record) : list value :=
  (fun v => get_field v primaryKey) <$> data.

Definition unique_keys (s : VendorDataStore.t) : Prop :=
  NoDup (keys (VendorDataStore.primaryKey s) (VendorDataStore.data s)).

(** Two store contents hold the same records (same identity keys, same
    field values), in any order. *)
Definition store_equal (l1 l2 : list record) : Prop := l1 ≡ₚ l2.

(** [c.execute(); c.undo();] *)
Definition execute_then_undo (c : Command) : M VendorDataStore.t unit :=
  c' ← execute c; undo c'.

(** A record passes the view's filters: every active filter matches. *)
Definition satisfies `{Host} (s : VendorAppState.t) (item : record) : Prop :=
  Forall (fun '(column, searchTerm) =>
            search_match (VendorAppState.searchStrategy s)
              (get_field item column) searchTerm = true)
    (VendorAppState.searchFilters s).

#[global] Instance satisfies_dec `{Host} s item : Decision (satisfies s item).
Proof.
  unfold satisfies. apply Forall_dec. intros [column searchTerm]. apply _.
Defined.







(** A command whose [undo] reverses its [execute]: an add of a key that
    is not in the store (and is equal to itself, so not NaN), an update
    that only overwrites fields its target has and leaves the target
    findable under [id], any delete. *)
Definition reversible (s : VendorDataStore.t) (c : Command) : Prop :=
  match c with
  | AddVendorCommand vendor =>
      let k := get_field vendor (VendorDataStore.primaryKey s) in
      strict_eq k k = true ∧ VendorDataStore.find s k = None
  | UpdateVendorCommand id updates _ =>
      ∀ index old, VendorDataStore.find s id = Some (index, old) →
        dom updates ⊆ dom old ∧
        VendorDataStore.has_key s id (spread old updates)
  | DeleteVendorCommand _ _ => True
  end.

(** No observer of the list throws, whatever it is called with. *)
Definition quiet (observers : list observer) : Prop :=
  ∀ o event d, o ∈ observers → observer_call o event d = None.

(** [x] does not come after [y] in the order a comparator induces. *)
Definition precedes {A} (comparefn : A -> A -> num) (x y : A) : Prop :=
  sort_sign (comparefn x y) ≠ Gt.

(** [x] and [y] compare equal. *)
Definition ties {A} (comparefn : A -> A -> num) (x y : A) : bool :=
  bool_decide (precedes comparefn x y) && bool_decide (precedes comparefn y x).

(** What ECMAScript asks of the result [sorted] of sorting [l] with a
    consistent comparator: it is ordered, and the elements that compare
    equal to a given one are those of [l], in the order of [l]. *)
Definition stable_sort_of {A} (comparefn : A -> A -> num) (l sorted : list A)
    : Prop :=
  StronglySorted (precedes comparefn) sorted ∧
  ∀ x, List.filter (ties comparefn x) sorted = List.filter (ties comparefn x) l.

(** ** Example objects *)

Definition three_vendors : list record :=
  [vendor 1 "Charlie"; vendor 2 "Alice"; vendor 3 "Bob"].

Definition faulty_observer : observer :=
  {| observer_id := 1; observer_call := fun _ _ => Some (Error "render failed") |}.

Definition quiet_observer : observer :=
  {| observer_id := 2; observer_call := fun _ _ => None |}.

Definition store_of (data : list record) (observers : list observer)
    : VendorDataStore.t :=
  VendorDataStore.with_observers observers
    (VendorDataStore.with_data data VendorDataStore.new).

Definition view_of (data : list record) (filters : list (string * value))
    (observers : list observer) : VendorAppState.t :=
  VendorAppState.with_observers observers
    (VendorAppState.with_searchFilters filters
       (VendorAppState.with_data data VendorAppState.new)).

Definition categorised (id : Z) (category : string) : record :=
  {[ "id" := VNum (Fin id); "category" := VStr category ]}.

(** ** Further classes of [vendors-core.js]

    Strings are sequences of code units below 256.  Left out, because the
    embedding has no rounding arithmetic, DOM or URL parser:
    [StatisticsCalculator.sum] and [average], [ScrollManager] and
    [Validator.isValidURL]; [Validator.isRequired] is left out with them.
    [ThemeManager] is modelled for a browser whose storage does not
    throw. *)

(** [x <= y]; false when either side is NaN. *)
Definition num_leb (x y : num) : bool :=
  match x, y with
  | NaN, _ | _, NaN => false
  | Inf true, _ => true
  | _, Inf false => true
  | Fin a, Fin b => bool_decide (a <= b)%Z
  | _, _ => false
  end.

(** One step of [Math.max] and of [Math.min]: NaN is absorbing, otherwise
    the larger (smaller) of the running value and the next argument. *)
Definition num_max (highest number : num) : num :=
  match highest, number with
  | NaN, _ | _, NaN => NaN
  | _, _ => if num_leb number highest then highest else number
  end.

Definition num_min (lowest number : num) : num :=
  match lowest, number with
  | NaN, _ | _, NaN => NaN
  | _, _ => if num_leb lowest number then lowest else number
  end.

(** [Math.max(...xs)] and [Math.min(...xs)] (the engine's limit on the
    number of arguments of a call is not modelled) *)
Definition Math_max (xs : list num) : num := foldl num_max (Inf true) xs.
Definition Math_min (xs : list num) : num := foldl num_min (Inf false) xs.

(** The property names every plain object inherits from
    [Object.prototype] in a browser. *)
Definition object_prototype_keys : list string :=
  ["constructor"; "hasOwnProperty"; "isPrototypeOf"; "propertyIsEnumerable";
   "toLocaleString"; "toString"; "valueOf"; "__proto__";
   "__defineGetter__"; "__defineSetter__"; "__lookupGetter__";
   "__lookupSetter__"].

(** *** StatisticsCalculator (lines 523-552) *)

Module StatisticsCalculator.
Section Methods.
Context `{Host}.

Definition max (data : list record) (field : string) : num :=
  Math_max (numeric_val field <$> data).

Definition min (data : list record) (field : string) : num :=
  Math_min (numeric_val field <$> data).

Definition count (data : list record) (field : string) (v : value) : nat :=
  length (List.filter (fun item => strict_eq (get_field item field) v) data).

(** the property key [groups[key]] is read and written under *)
Definition group_key (field : string) (item : record) : string :=
  to_string (get_field item field).

(** the reducer of [groupBy], run over [data] from the groups built so
    far.  [groups] holds the own properties of the accumulator object; a
    key that is not an own property but is inherited reads as a truthy
    value without a [push] method, and the call throws a TypeError. *)
Fixpoint groupBy_from (groups : gmap string (list record))
    (data : list record) (field : string)
    : outcome (gmap string (list record)) :=
  match data with
  | [] => Ok groups
  | item :: rest =>
      let key := group_key field item in
      match groups !! key with
      | Some group => groupBy_from (<[key := group ++ [item]]> groups) rest field
      | None =>
          if bool_decide (key ∈ object_prototype_keys)
          then Throw (Error "groups[key].push is not a function")
          else groupBy_from (<[key := [item]]> groups) rest field
      end
  end.

Definition groupBy (data : list record) (field : string)
    : outcome (gmap string (list record)) :=
  groupBy_from ∅ data field.

End Methods.
End StatisticsCalculator.

(** *** Validator (lines 476-520)

    A rule is a function from the value to a result object; rules that
    throw or return a non-object are not modelled. *)

Definition is_digit (c : ascii) : bool :=
  let n := nat_of_ascii c in (48 <=? n)%nat && (n <=? 57)%nat.

(** [\s] on code units below 256 *)
Definition is_space (c : ascii) : bool :=
  bool_decide (nat_of_ascii c ∈ [9; 10; 11; 12; 13; 32; 160]%nat).

(** the class [[\d\s\-\(\)]] *)
Definition phone_char (c : ascii) : bool :=
  is_digit c || is_space c ||
  bool_decide (c = "-"%char) || bool_decide (c = "("%char) ||
  bool_decide (c = ")"%char).

Fixpoint string_forallb (p : ascii -> bool) (s : string) : bool :=
  match s with
  | EmptyString => true
  | String c s' => p c && string_forallb p s'
  end.

(** [s.replace(/\D/g, '').length] *)
Fixpoint count_digits (s : string) : nat :=
  match s with
  | EmptyString => 0
  | String c s' => (if is_digit c then 1 else 0) + count_digits s'
  end.

Module Validator.

Definition rule : Type := value -> record.

Record t : Type := mk {
  rules : list (string * list rule)      (* a [Map] from field to array *)
}.

Definition new : t := {| rules := [] |}.

(** [this.rules.get(field)] *)
Fixpoint rules_get (field : string) (m : list (string * list rule))
    : option (list rule) :=
  match m with
  | [] => None
  | (f, rs) :: m' => if bool_decide (f = field) then Some rs else rules_get field m'
  end.

(** [this.rules.get(field).push(rule)] *)
Fixpoint rules_push (field : string) (r : rule) (m : list (string * list rule))
    : list (string * list rule) :=
  match m with
  | [] => []
  | (f, rs) :: m' =>
      if bool_decide (f = field) then (f, rs ++ [r]) :: m'
      else (f, rs) :: rules_push field r m'
  end.

Definition addRule (field : string) (r : rule) (v : t) : t :=
  let m := match rules_get field (rules v) with
           | Some _ => rules v
           | None => rules v ++ [(field, [])]
           end in
  mk (rules_push field r m).

(** [!result.valid] *)
Definition fails (result : record) : bool :=
  negb (truthy (get_field result "valid")).

(** the loop of [validate] *)
Fixpoint first_failure (fieldRules : list rule) (v : value) : record :=
  match fieldRules with
  | [] => {[ "valid" := VBool true ]}
  | r :: rest =>
      let result := r v in
      if fails result then result else first_failure rest v
  end.

Definition validate (field : string) (v : value) (s : t) : record :=
  first_failure (default [] (rules_get field (rules s))) v.

Section Methods.
Context `{Host}.

(** [regex.test(phone) && phone.replace(/\D/g, '').length >= 10]: the test
    coerces [phone] to a string, [replace] exists on strings only. *)
Definition isValidPhone (phone : value) : outcome bool :=
  let s := to_string phone in
  if negb (bool_decide (s = "")) && string_forallb phone_char s
  then match phone with
       | VStr s => Ok (bool_decide (10 <= count_digits s)%nat)
       | _ => Throw (Error "phone.replace is not a function")
       end
  else Ok false.

(** [String(value).length >= min] and [String(value).length <= max] *)
Definition minLength (v : value) (min : nat) : bool :=
  bool_decide (min <= String.length (to_string v))%nat.

Definition maxLength (v : value) (max : nat) : bool :=
  bool_decide (String.length (to_string v) <= max)%nat.

End Methods.
End Validator.

(** *** ThemeManager (lines 413-473)

    The browser state the class touches: the [localStorage] item
    ['vendor_theme'] ([None]: not set) and whether [document.body] carries
    the class ['night-mode'].  The colour table [themes] is never read by
    a method and is left out. *)

Module ThemeManager.

Record browser : Type := mk_browser {
  vendor_theme : option string;
  night_mode : bool
}.

Record t : Type := mk { currentTheme : string }.

Definition state : Type := t * browser.

(** [localStorage.getItem('vendor_theme') || 'light'] *)
Definition loadTheme (b : browser) : string :=
  match vendor_theme b with
  | Some theme => if truthy (VStr theme) then theme else "light"
  | None => "light"
  end.

(** the constructor *)
Definition new (b : browser) : state := (mk (loadTheme b), b).

Definition saveTheme (theme : string) (st : state) : state :=
  (st.1, mk_browser (Some theme) (night_mode st.2)).

Definition getCurrentTheme (st : state) : string := currentTheme st.1.

Definition applyTheme (st : state) : state :=
  (st.1, mk_browser (vendor_theme st.2)
           (bool_decide (currentTheme st.1 = "dark"))).

Definition setTheme (theme : string) (st : state) : state :=
  applyTheme (saveTheme theme (mk theme, st.2)).

Definition toggleTheme (st : state) : state :=
  setTheme (if bool_decide (currentTheme st.1 = "light") then "dark" else "light")
    st.

End ThemeManager.

(** ** Further derived notions *)

(** The view shows what a recomputation would show. *)
Definition up_to_date `{Host} (s : VendorAppState.t) : Prop :=
  VendorAppState.filteredData (state_of (VendorAppState.applyFiltersAndSort s))
  = VendorAppState.filteredData s.

(** The identities of a list of observers. *)
Definition observer_ids (observers : list observer) : list nat :=
  observer_id <$> observers.

(** The calls a trace makes to the observer [id]. *)
Definition calls_to (id : nat) (trace : list effect) : list effect :=
  List.filter (fun e => match e with
                        | Called id' _ _ => bool_decide (id' = id)
                        | ConsoleError _ _ => false
                        end) trace.

(** A command whose [execute] can be repeated after its [undo] with the
    same effect: a reversible add or update, a delete of a key that at
    most one record has. *)
Definition replayable (s : VendorDataStore.t) (c : Command) : Prop :=
  match c with
  | DeleteVendorCommand id _ =>
      ∀ index deleted, VendorDataStore.find s id = Some (index, deleted) →
        list_find (VendorDataStore.has_key s id)
          (delete index (VendorDataStore.data s)) = None
  | _ => reversible s c
  end.

(** Two records stand in the order of the direction [d] by their keys. *)
Definition in_order (d : direction) (key : record -> num) (a b : record) : Prop :=
  match d with
  | asc => num_leb (key a) (key b) = true
  | desc => num_leb (key b) (key a) = true
  end.

(** The view holds the records of [data] that pass every filter, each as
    often as [data] does, in some order. *)
Definition shows_filtered `{Host} (s : VendorAppState.t) : Prop :=
  VendorAppState.filteredData s ≡ₚ filter (satisfies s) (VendorAppState.data s).


(** A method call returned and called each of the observers with the
    event [event]. *)
Definition returns_and_notifies {S} (observers : list observer) (event : string)
    (r : outcome unit * S * list effect) : Prop :=
  outcome_of r = Ok tt ∧
  Forall (fun o => ∃ d, Called (observer_id o) event d ∈ trace_of r) observers.

(** The records of [data] whose group key is [key], in order. *)
Definition keyed `{Host} (field key : string) (data : list record) : list record :=
  List.filter (fun item => bool_decide (StatisticsCalculator.group_key field item = key))
    data.

(** A group of the result: absent when it would be empty. *)
Definition group_of (l : list record) : option (list record) :=
  match l with
  | [] => None
  | _ => Some l
  end.

(** *** [Validator.isValidEmail] (lines 490-493)

    The pattern [/^[^\s@]+@[^\s@]+\.[^\s@]+$/], one function for each of
    its three repetitions. *)

(** the class [[^\s@]] *)
Definition email_char (c : ascii) : bool :=
  negb (is_space c) && negb (bool_decide (c = "@"%char)).

(** [[^\s@]+$] *)
Definition match_tld (s : string) : bool :=
  negb (bool_decide (s = "")) && string_forallb email_char s.

(** [[^\s@]+\.[^\s@]+$] *)
Fixpoint match_domain (s : string) : bool :=
  match s with
  | EmptyString => false
  | String c rest =>
      email_char c &&
      (match rest with
       | String "."%char tld => match_tld tld
       | _ => false
       end || match_domain rest)
  end.

(** [^[^\s@]+@[^\s@]+\.[^\s@]+$] *)
Fixpoint match_email (s : string) : bool :=
  match s with
  | EmptyString => false
  | String c rest =>
      email_char c &&
      (match rest with
       | String "@"%char domain => match_domain domain
       | _ => false
       end || match_email rest)
  end.

(** [regex.test(email)]: the argument is coerced to a string *)
Definition isValidEmail `{Host} (email : value) : bool :=
  match_email (to_string email).

(** * Properties *)

(** ** Array.prototype.sort *)

Section ArraySortFacts.
Context {A : Type} (comparefn : A -> A -> num).

Lemma sorted_insert_perm (x : A) (l : list A) :
  sorted_insert comparefn x l ≡ₚ x :: l.
Proof.
  induction l as [|y l IH]; simpl; [done|].
  destruct (sort_sign (comparefn x y)); try done.
  rewrite IH. apply Permutation_swap.
Qed.

Lemma array_sort_perm (l : list A) : array_sort comparefn l ≡ₚ l.
Proof.
  induction l as [|x l IH]; simpl; [done|].
  by rewrite sorted_insert_perm, IH.
Qed.

Lemma array_sort_elem_of (x : A) (l : list A) :
  x ∈ array_sort comparefn l ↔ x ∈ l.
Proof. by rewrite array_sort_perm. Qed.

Lemma array_sort_length (l : list A) :
  length (array_sort comparefn l) = length l.
Proof. by rewrite array_sort_perm. Qed.

(** Inserting [x] does not move it past an element of a class [P] whose
    members it does not follow in the comparator's order. *)
Lemma sorted_insert_filter (P : A -> bool) (x : A) (l : list A) :
  (∀ y, y ∈ l → P x = true → P y = true →
        sort_sign (comparefn x y) ≠ Gt) →
  List.filter P (sorted_insert comparefn x l) = List.filter P (x :: l).
Proof.
  induction l as [|y l IH]; intros Hle; [done|].
  simpl. destruct (sort_sign (comparefn x y)) eqn:Hs; try done.
  simpl. destruct (P y) eqn:Hy.
  - destruct (P x) eqn:Hx.
    + exfalso. eapply (Hle y); [left|done..].
    + rewrite IH; [simpl; by rewrite Hx|].
      intros z Hz. apply Hle. by right.
  - rewrite IH; [simpl; by destruct (P x)|].
    intros z Hz. apply Hle. by right.
Qed.

Lemma array_sort_filter (P : A -> bool) (l : list A) :
  (∀ x y, x ∈ l → y ∈ l → P x = true → P y = true →
          sort_sign (comparefn x y) ≠ Gt) →
  List.filter P (array_sort comparefn l) = List.filter P l.
Proof.
  induction l as [|x l IH]; intros Hle; [done|].
  simpl array_sort. rewrite sorted_insert_filter.
  - simpl. rewrite IH; [done|].
    intros a b Ha Hb. apply Hle; by right.
  - intros y Hy. apply (proj1 (array_sort_elem_of _ _)) in Hy.
    apply Hle; [apply list_elem_of_here | by apply list_elem_of_further].
Qed.

(** On a consistent comparator the result is sorted. *)
Lemma sorted_insert_sorted (x : A) (l : list A) :
  (∀ a b, ¬ precedes comparefn a b → precedes comparefn b a) →
  Transitive (precedes comparefn) →
  StronglySorted (precedes comparefn) l →
  StronglySorted (precedes comparefn) (sorted_insert comparefn x l).
Proof.
  intros Htot Htrans. induction 1 as [|y l Hl IH Hy]; simpl.
  - repeat constructor.
  - destruct (sort_sign (comparefn x y)) eqn:Hs.
    + constructor; [by constructor|]. constructor.
      * unfold precedes. by rewrite Hs.
      * eapply Forall_impl; [exact Hy|]. intros z Hz.
        eapply Htrans; [|exact Hz]. unfold precedes. by rewrite Hs.
    + constructor; [by constructor|]. constructor.
      * unfold precedes. by rewrite Hs.
      * eapply Forall_impl; [exact Hy|]. intros z Hz.
        eapply Htrans; [|exact Hz]. unfold precedes. by rewrite Hs.
    + constructor; [done|]. rewrite sorted_insert_perm. constructor; [|done].
      apply Htot. unfold precedes. rewrite Hs. by intros [].
Qed.

Lemma array_sort_sorted (l : list A) :
  (∀ a b, ¬ precedes comparefn a b → precedes comparefn b a) →
  Transitive (precedes comparefn) →
  StronglySorted (precedes comparefn) (array_sort comparefn l).
Proof.
  intros Htot Htrans. induction l as [|x l IH]; simpl; [constructor|].
  by apply sorted_insert_sorted.
Qed.

(** A consistent comparator has only one stable sort of a list, and
    [array_sort] computes it: whatever algorithm an engine runs, on such a
    comparator it returns this list. *)
Lemma ties_refl (x : A) :
  (∀ a b, ¬ precedes comparefn a b → precedes comparefn b a) →
  ties comparefn x x = true.
Proof.
  intros Htot. unfold ties.
  destruct (decide (precedes comparefn x x)) as [Hx|Hx].
  - by rewrite bool_decide_eq_true_2.
  - by specialize (Htot x x Hx).
Qed.

Lemma sorted_same_ties (l1 l2 : list A) :
  (∀ a b, ¬ precedes comparefn a b → precedes comparefn b a) →
  StronglySorted (precedes comparefn) l1 →
  StronglySorted (precedes comparefn) l2 →
  (∀ x, List.filter (ties comparefn x) l1 = List.filter (ties comparefn x) l2) →
  l1 = l2.
Proof.
  intros Htot Hs1. revert l2.
  induction Hs1 as [|x l1 Hs1 IH Hx]; intros l2 Hs2 Heq.
  - destruct l2 as [|y l2]; [done|].
    specialize (Heq y). cbn in Heq. by rewrite ties_refl in Heq.
  - destruct Hs2 as [|y l2 Hs2 Hy].
    { specialize (Heq x). cbn in Heq. by rewrite ties_refl in Heq. }
    assert (Hxy : precedes comparefn x y).
    { pose proof (Heq y) as Hyy. cbn in Hyy. rewrite (ties_refl y Htot) in Hyy.
      assert (Hin : In y (List.filter (ties comparefn y) (x :: l1))).
      { cbn. rewrite Hyy. by left. }
      apply filter_In in Hin as [[->|Hin] _].
      - destruct (decide (precedes comparefn y y)) as [|Hn]; [done|].
        by apply Htot.
      - rewrite Forall_forall in Hx. by apply Hx, list_elem_of_In. }
    assert (Hyx : precedes comparefn y x).
    { pose proof (Heq x) as Hxx. cbn in Hxx. rewrite (ties_refl x Htot) in Hxx.
      assert (Hin : In x (List.filter (ties comparefn x) (y :: l2))).
      { cbn. rewrite <- Hxx. by left. }
      apply filter_In in Hin as [[->|Hin] _].
      - destruct (decide (precedes comparefn x x)) as [|Hn]; [done|].
        by apply Htot.
      - rewrite Forall_forall in Hy. by apply Hy, list_elem_of_In. }
    assert (Hhead : x = y).
    { pose proof (Heq x) as Hxx. cbn in Hxx. rewrite (ties_refl x Htot) in Hxx.
      unfold ties in Hxx at 2. rewrite !bool_decide_eq_true_2 in Hxx by done.
      cbn in Hxx. congruence. }
    subst y. f_equal. apply IH; [done|].
    intros z. specialize (Heq z). cbn in Heq.
    destruct (ties comparefn z x); congruence.
Qed.

Lemma array_sort_stable_sort_of (l : list A) :
  (∀ a b, ¬ precedes comparefn a b → precedes comparefn b a) →
  Transitive (precedes comparefn) →
  stable_sort_of comparefn l (array_sort comparefn l).
Proof.
  intros Htot Htrans. split; [by apply array_sort_sorted|].
  intros x. apply array_sort_filter.
  intros a b _ _ Ha Hb. unfold ties in Ha, Hb.
  apply andb_true_iff in Ha as [Hxa%bool_decide_eq_true_1 Hax%bool_decide_eq_true_1].
  apply andb_true_iff in Hb as [Hxb%bool_decide_eq_true_1 Hbx%bool_decide_eq_true_1].
  by apply (Htrans a x b).
Qed.

Lemma stable_sort_unique (l sorted : list A) :
  (∀ a b, ¬ precedes comparefn a b → precedes comparefn b a) →
  Transitive (precedes comparefn) →
  stable_sort_of comparefn l sorted →
  sorted = array_sort comparefn l.
Proof.
  intros Htot Htrans [Hs Hf].
  destruct (array_sort_stable_sort_of l Htot Htrans) as [Hs' Hf'].
  apply sorted_same_ties; [done..|].
  intros x. by rewrite Hf, Hf'.
Qed.

End ArraySortFacts.

Lemma sort_sign_neg (v : num) :
  sort_sign (num_neg v) = CompOpp (sort_sign v).
Proof.
  destruct v as [|[]|z]; simpl; try done.
  destruct z; done.
Qed.

Lemma sort_sign_directed (d : direction) (v : num) :
  sort_sign v = Eq → sort_sign (directed d v) = Eq.
Proof. destruct d; simpl; [done|]. rewrite sort_sign_neg. by intros ->. Qed.

(** ** Sort strategies *)

Section SortStrategyFacts.
Context `{Host}.

Lemma get_field_singleton (column : string) (v : value) :
  get_field {[ column := v ]} column = v.
Proof. unfold get_field. by rewrite lookup_singleton_eq. Qed.

Lemma truthy_nonempty (s : string) : s ≠ "" → truthy (VStr s) = true.
Proof. by destruct s. Qed.

Lemma truthy_nonzero (z : Z) : z ≠ 0%Z → truthy (VNum (Fin z)) = true.
Proof. by destruct z. Qed.

(** The part of the chronological key that the code does coerce to epoch
    zero: an absent field (and any other falsy value). *)
Lemma date_val_falsy (column : string) (a : record) :
  truthy (get_field a column) = false → date_val column a = Fin 0.
Proof.
  intros Hf. unfold date_val, js_or. by rewrite Hf.
Qed.

Lemma date_val_absent (column : string) (a : record) :
  a !! column = None → date_val column a = Fin 0.
Proof.
  intros Hn. apply date_val_falsy. unfold get_field. by rewrite Hn.
Qed.

Lemma date_val_string (column : string) (a : record) (s : string) :
  a !! column = Some (VStr s) → s ≠ "" → date_val column a = date_parse s.
Proof.
  intros Ha Hs. unfold date_val, js_or, get_field. rewrite Ha.
  cbn [from_option id]. by rewrite truthy_nonempty.
Qed.

Lemma date_val_timestamp (column : string) (a : record) (t : Z) :
  a !! column = Some (VNum (Fin t)) → (Z.abs t <= 8640000000000000)%Z →
  date_val column a = Fin t.
Proof.
  intros Ha Ht. unfold date_val, js_or, get_field. rewrite Ha.
  cbn [from_option id].
  destruct (decide (t = 0%Z)) as [->|Hne]; [done|].
  rewrite truthy_nonzero by done. cbn [date_getTime to_number time_clip].
  by rewrite bool_decide_eq_true_2.
Qed.

(** The numeric sorter's key is never NaN, so its comparator is
    consistent and the result is sorted in the chosen direction. *)
Lemma numeric_val_not_NaN (column : string) (a : record) :
  numeric_val column a ≠ NaN.
Proof.
  unfold numeric_val. destruct (to_number (get_field a column)) as [|[]|z]; try done.
  simpl. by destruct z.
Qed.

Lemma num_sub_total (d : direction) (x y : num) :
  x ≠ NaN → y ≠ NaN →
  sort_sign (directed d (num_sub x y)) = Gt →
  sort_sign (directed d (num_sub y x)) ≠ Gt.
Proof.
  destruct d, x as [|[]|x], y as [|[]|y]; simpl; try done;
    rewrite ?Z.compare_gt_iff, ?Z.compare_le_iff; lia.
Qed.

Lemma num_sub_trans (d : direction) (x y z : num) :
  x ≠ NaN → y ≠ NaN → z ≠ NaN →
  sort_sign (directed d (num_sub x y)) ≠ Gt →
  sort_sign (directed d (num_sub y z)) ≠ Gt →
  sort_sign (directed d (num_sub x z)) ≠ Gt.
Proof.
  destruct d, x as [|[]|x], y as [|[]|y], z as [|[]|z]; simpl; try done;
    rewrite ?Z.compare_le_iff; lia.
Qed.


(** The numeric sorter does not depend on the engine's algorithm. *)
Lemma numeric_sort_unique (data sorted : list record) (column : string)
    (d : direction) :
  stable_sort_of (comparator NumericSortStrategy column d) data sorted →
  sorted = strategy_sort NumericSortStrategy data column d.
Proof.
  apply stable_sort_unique.
  - intros a b Hab. unfold precedes, comparator in *. cbn [comparison_of] in *.
    apply num_sub_total; try apply numeric_val_not_NaN.
    by destruct (sort_sign _); try (by destruct Hab).
  - intros a b c. unfold precedes, comparator. cbn [comparison_of].
    apply num_sub_trans; apply numeric_val_not_NaN.
Qed.

(** Records with the same sort key compare equal (the numeric and the
    chronological sorter; the alphabetic one on a host whose
    [localeCompare] finds a string equal to itself). *)
Lemma num_sub_same (x : num) : sort_sign (num_sub x x) = Eq.
Proof.
  destruct x as [|[]|x]; simpl; try done. by rewrite Z.sub_diag.
Qed.

Lemma same_key_compares_equal (strategy : SortStrategy) (column : string)
    (a b : record) :
  (∀ x, localeCompare x x = 0%Z) →
  match strategy with
  | AlphabeticSortStrategy => alphabetic_val column a = alphabetic_val column b
  | NumericSortStrategy => numeric_val column a = numeric_val column b
  | DateSortStrategy => date_val column a = date_val column b
  end →
  sort_sign (comparison_of strategy column a b) = Eq.
Proof.
  intros Hrefl. destruct strategy; cbn [comparison_of]; intros ->.
  - by rewrite Hrefl.
  - apply num_sub_same.
  - apply num_sub_same.
Qed.

End SortStrategyFacts.



(** C5. The chronological sorter does not treat an unparsable date as
    epoch zero: its key for such a field is NaN, which compares equal to
    every timestamp.  So a record [g] with an unparsable date that follows
    a record [a] dated after the epoch stays behind it in both directions,
    while with the key of the specification (epoch zero for [g]) the
    ascending order puts [g] first. *)
Theorem date_sort_unparsable_is_not_epoch_zero `{Host} (column s : string)
    (t : Z) (a g : record) :
  g !! column = Some (VStr s) → s ≠ "" → date_parse s = NaN →
  date_val column a = Fin t → (0 < t)%Z →
  date_val column g = NaN ∧
  chronological_key_spec column g = Fin 0 ∧
  strategy_sort DateSortStrategy [a; g] column asc = [a; g] ∧
  strategy_sort DateSortStrategy [a; g] column desc = [a; g] ∧
  chronological_sort_spec [a; g] column asc = [g; a].
Proof.
  intros Hfield Hs Hp Ha Ht.
  assert (Hg : date_val column g = NaN) by (by rewrite (date_val_string _ _ s)).
  assert (Hgs : chronological_key_spec column g = Fin 0).
  { unfold chronological_key_spec. by rewrite Hg. }
  assert (Has : chronological_key_spec column a = Fin t).
  { unfold chronological_key_spec. by rewrite Ha. }
  split_and!; try done.
  - unfold strategy_sort, comparator. cbn [array_sort sorted_insert comparison_of].
    by rewrite Ha, Hg.
  - unfold strategy_sort, comparator. cbn [array_sort sorted_insert comparison_of].
    by rewrite Ha, Hg.
  - unfold chronological_sort_spec. cbn [array_sort sorted_insert].
    rewrite Has, Hgs. cbn. replace (t - 0)%Z with t by lia.
    by destruct t; try lia.
Qed.

Lemma date_sort_unparsable_is_not_epoch_zero_witness :
  let a : record := {[ "date" := VNum (Fin 86400000) ]} in
  let g : record := {[ "date" := VStr "not a date" ]} in
  @date_val ascii_host "date" g = NaN ∧
  @chronological_key_spec ascii_host "date" g = Fin 0 ∧
  @strategy_sort ascii_host DateSortStrategy [a; g] "date" asc = [a; g] ∧
  @strategy_sort ascii_host DateSortStrategy [a; g] "date" desc = [a; g] ∧
  @chronological_sort_spec ascii_host [a; g] "date" asc = [g; a].
Proof.
  intros a g.
  apply (@date_sort_unparsable_is_not_epoch_zero ascii_host "date"
           "not a date" 86400000 a g); [reflexivity|done|reflexivity..|lia].
Defined.

(** ** Running methods *)

Ltac unfold_M :=
  unfold mbind, M_bind, mret, M_ret, get, modify, tell, throw, try_catch in *.

Lemma bind_run {S A B} (m : M S A) (k : A -> M S B) (s : S) :
  (m ≫= k) s =
  match m s with
  | (Ok a, s1, t1) =>
      match k a s1 with
      | (r, s2, t2) => (r, s2, t1 ++ t2)
      end
  | (Throw e, s1, t1) => (Throw e, s1, t1)
  end.
Proof. reflexivity. Qed.

Ltac step_M := rewrite bind_run; unfold modify, get; cbv beta iota.

Lemma call_observer_run {S} (o : observer) (event : string) (d : payload)
    (s : S) :
  call_observer o event d s
  = (match observer_call o event d with
     | Some e => Throw e
     | None => Ok tt
     end, s, [Called (observer_id o) event d]).
Proof.
  unfold call_observer. rewrite bind_run. unfold_M.
  by destruct (observer_call o event d).
Qed.

Lemma forEach_caught {S} (observers : list observer) (event : string)
    (d : payload) (s : S) :
  forEach observers (fun o =>
    try_catch (call_observer o event d)
      (fun error => tell [ConsoleError "Observer error:" error])) s
  = (Ok tt, s, caught_trace observers event d).
Proof.
  induction observers as [|o os IH]; [done|].
  cbn [forEach]. rewrite bind_run. unfold try_catch at 1.
  rewrite call_observer_run. unfold tell in *.
  destruct (observer_call o event d) as [e|] eqn:Ho;
    rewrite IH; cbn [caught_trace flat_map]; by rewrite Ho.
Qed.

Lemma forEach_bare {S} (observers : list observer) (event : string)
    (d : payload) (s : S) :
  forEach observers (fun o => call_observer o event d) s
  = (fst (fan_out observers event d), s, snd (fan_out observers event d)).
Proof.
  induction observers as [|o os IH]; [done|].
  cbn [forEach fan_out]. rewrite bind_run, call_observer_run.
  destruct (observer_call o event d) as [e|]; [done|]. by rewrite IH.
Qed.

Lemma notify_run (event : string) (d : payload)
    (s : VendorAppState.t) :
  VendorAppState.notify event d s
  = (Ok tt, s, caught_trace (VendorAppState.observers s) event d).
Proof.
  unfold VendorAppState.notify. unfold mbind at 1, M_bind at 1, get.
  by rewrite forEach_caught.
Qed.

Lemma notifyObservers_run (event : string) (d : payload)
    (s : VendorDataStore.t) :
  VendorDataStore.notifyObservers event d s
  = (fst (fan_out (VendorDataStore.observers s) event d), s,
     snd (fan_out (VendorDataStore.observers s) event d)).
Proof.
  unfold VendorDataStore.notifyObservers. unfold mbind at 1, M_bind at 1, get.
  rewrite forEach_bare. by destruct (fan_out _ _ _) as [[] ?].
Qed.

Lemma caught_trace_calls (observers : list observer) (event : string)
    (d : payload) (o : observer) :
  o ∈ observers →
  Called (observer_id o) event d ∈ caught_trace observers event d.
Proof.
  intros Ho. unfold caught_trace. apply list_elem_of_In, in_flat_map.
  exists o. split; [by apply list_elem_of_In|]. by left.
Qed.

Lemma fan_out_quiet (observers : list observer) (event : string) (d : payload) :
  quiet observers → fst (fan_out observers event d) = Ok tt.
Proof.
  induction observers as [|o os IH]; intros Hq; [done|].
  cbn [fan_out]. rewrite (Hq o event d) by apply list_elem_of_here.
  apply IH. intros o' event' d' Ho'. apply Hq. by apply list_elem_of_further.
Qed.

Section StoreRuns.
Import VendorDataStore.

Lemma addVendor_run (vendor : record) (s : t) :
  addVendor vendor s
  = (match fst (fan_out (observers s) "vendorAdded" (PVendor vendor)) with
     | Ok _ => Ok vendor
     | Throw e => Throw e
     end,
     with_data (data s ++ [vendor]) s,
     snd (fan_out (observers s) "vendorAdded" (PVendor vendor))).
Proof.
  unfold addVendor. step_M. rewrite bind_run, notifyObservers_run.
  cbn [observers with_data].
  destruct (fan_out _ _ _) as [[] ?]; unfold_M; simpl; by rewrite ?app_nil_r.
Qed.

Lemma updateVendor_run (id : value) (updates : record) (s : t) :
  updateVendor id updates s
  = match find s id with
    | Some (index, old) =>
        let updated := spread old updates in
        (match fst (fan_out (observers s) "vendorUpdated" (PVendor updated)) with
         | Ok _ => Ok (Some updated)
         | Throw e => Throw e
         end,
         with_data (<[index := updated]> (data s)) s,
         snd (fan_out (observers s) "vendorUpdated" (PVendor updated)))
    | None => (Ok None, s, [])
    end.
Proof.
  unfold updateVendor. rewrite bind_run. unfold get.
  cbv beta iota.
  destruct (find s id) as [[index old]|]; [|done].
  step_M. rewrite bind_run, notifyObservers_run. cbn [observers with_data].
  destruct (fan_out _ _ _) as [[] ?]; unfold_M; simpl; by rewrite ?app_nil_r.
Qed.

Lemma deleteVendor_run (id : value) (s : t) :
  deleteVendor id s
  = match find s id with
    | Some (index, deleted) =>
        (match fst (fan_out (observers s) "vendorDeleted" (PVendor deleted)) with
         | Ok _ => Ok (Some deleted)
         | Throw e => Throw e
         end,
         with_data (delete index (data s)) s,
         snd (fan_out (observers s) "vendorDeleted" (PVendor deleted)))
    | None => (Ok None, s, [])
    end.
Proof.
  unfold deleteVendor. rewrite bind_run. unfold get.
  cbv beta iota.
  destruct (find s id) as [[index deleted]|]; [|done].
  step_M. rewrite bind_run, notifyObservers_run. cbn [observers with_data].
  destruct (fan_out _ _ _) as [[] ?]; unfold_M; simpl; by rewrite ?app_nil_r.
Qed.

Lemma getVendor_run (id : value) (s : t) :
  getVendor id s = (Ok (snd <$> find s id), s, []).
Proof. reflexivity. Qed.

Lemma setData_run (d : list record) (s : t) :
  setData d s
  = (fst (fan_out (observers s) "dataLoaded" (PArray d)),
     with_data d s,
     snd (fan_out (observers s) "dataLoaded" (PArray d))).
Proof.
  unfold setData. step_M. step_M. rewrite notifyObservers_run.
  cbn [observers with_data data].
  by destruct (fan_out _ _ _) as [[] ?].
Qed.

(** An identity key is absent exactly when the scan finds nothing. *)
Lemma find_None (s : t) (id : value) :
  find s id = None ↔
  ∀ v, v ∈ data s → strict_eq (get_field v (primaryKey s)) id = false.
Proof.
  unfold find. rewrite list_find_None, Forall_forall. unfold has_key.
  split; intros Hn v Hv; specialize (Hn v Hv).
  - by destruct (strict_eq _ _).
  - by rewrite Hn.
Qed.

End StoreRuns.

(** ** Notification *)

(** The view's notifier calls every subscribed observer with the event
    and payload, returns normally whatever the observers do, and logs each
    exception to the console. *)
Lemma notify_delivers_to_all (event : string) (d : payload)
    (s : VendorAppState.t) :
  outcome_of (VendorAppState.notify event d s) = Ok tt ∧
  state_of (VendorAppState.notify event d s) = s ∧
  ∀ o, o ∈ VendorAppState.observers s →
    Called (observer_id o) event d
      ∈ trace_of (VendorAppState.notify event d s).
Proof.
  rewrite notify_run. split_and!; [done..|].
  intros o Ho. by apply caught_trace_calls.
Qed.

(** When no observer throws, the store's notifier calls them all, in
    subscription order, and returns. *)
Lemma notifyObservers_quiet (event : string) (d : payload)
    (s : VendorDataStore.t) :
  quiet (VendorDataStore.observers s) →
  VendorDataStore.notifyObservers event d s
  = (Ok tt, s,
     (fun o => Called (observer_id o) event d) <$> VendorDataStore.observers s).
Proof.
  intros Hq. rewrite notifyObservers_run, fan_out_quiet by done.
  do 2 f_equal.
  induction (VendorDataStore.observers s) as [|o os IH]; [done|].
  cbn [fan_out]. rewrite (Hq o event d) by apply list_elem_of_here.
  cbn [snd fmap list_fmap]. f_equal. apply IH.
  intros o' event' d' Ho'. apply Hq. by apply list_elem_of_further.
Qed.

(** C3. The store's notifier does not catch: when the first subscribed
    observer throws, [notifyObservers] stops there, the remaining
    observers are not called, and the exception comes out of the mutator
    [addVendor] after the record has been appended.  The view's notifier,
    given the same observers, calls all of them and returns. *)
Theorem notifyObservers_propagates (faulty : observer)
    (others : list observer) (e : js_error) (vendor : record)
    (s : VendorDataStore.t) (v : VendorAppState.t) :
  VendorDataStore.observers s = faulty :: others →
  VendorAppState.observers v = faulty :: others →
  observer_call faulty "vendorAdded" (PVendor vendor) = Some e →
  VendorDataStore.notifyObservers "vendorAdded" (PVendor vendor) s
    = (Throw e, s, [Called (observer_id faulty) "vendorAdded" (PVendor vendor)]) ∧
  VendorDataStore.addVendor vendor s
    = (Throw e,
       VendorDataStore.with_data (VendorDataStore.data s ++ [vendor]) s,
       [Called (observer_id faulty) "vendorAdded" (PVendor vendor)]) ∧
  VendorAppState.notify "vendorAdded" (PVendor vendor) v
    = (Ok tt, v,
       Called (observer_id faulty) "vendorAdded" (PVendor vendor)
       :: ConsoleError "Observer error:" e
       :: caught_trace others "vendorAdded" (PVendor vendor)).
Proof.
  intros Hs Hv He. split_and!.
  - rewrite notifyObservers_run, Hs. cbn [fan_out]. by rewrite He.
  - rewrite addVendor_run, Hs. cbn [fan_out]. by rewrite He.
  - rewrite notify_run, Hv. cbn [caught_trace flat_map]. by rewrite He.
Qed.

Lemma notifyObservers_propagates_witness :
  let s := store_of [] [faulty_observer; quiet_observer] in
  let v := view_of [] [] [faulty_observer; quiet_observer] in
  let e := Error "render failed" in
  VendorDataStore.notifyObservers "vendorAdded" (PVendor (vendor 5 "X")) s
    = (Throw e, s, [Called 1 "vendorAdded" (PVendor (vendor 5 "X"))]) ∧
  VendorDataStore.addVendor (vendor 5 "X") s
    = (Throw e, store_of [vendor 5 "X"] [faulty_observer; quiet_observer],
       [Called 1 "vendorAdded" (PVendor (vendor 5 "X"))]) ∧
  VendorAppState.notify "vendorAdded" (PVendor (vendor 5 "X")) v
    = (Ok tt, v,
       [Called 1 "vendorAdded" (PVendor (vendor 5 "X"));
        ConsoleError "Observer error:" e;
        Called 2 "vendorAdded" (PVendor (vendor 5 "X"))]).
Proof.
  intros s v e.
  apply (notifyObservers_propagates faulty_observer [quiet_observer] e
           (vendor 5 "X") s v); reflexivity.
Defined.


(** C8. Updating or deleting under an identity key that no record of the
    store has returns null, leaves the store as it was and calls no
    observer; the call returns normally. *)
Theorem update_delete_miss (s : VendorDataStore.t) (id : value)
    (updates : record) :
  (∀ v, v ∈ VendorDataStore.data s →
        strict_eq (get_field v (VendorDataStore.primaryKey s)) id = false) →
  VendorDataStore.updateVendor id updates s = (Ok None, s, []) ∧
  VendorDataStore.deleteVendor id s = (Ok None, s, []).
Proof.
  intros Habsent. apply find_None in Habsent.
  by rewrite updateVendor_run, deleteVendor_run, Habsent.
Qed.

Lemma update_delete_miss_witness :
  let s := store_of three_vendors [faulty_observer] in
  VendorDataStore.updateVendor (VNum (Fin 99)) {[ "name" := VStr "X" ]} s
    = (Ok None, s, []) ∧
  VendorDataStore.deleteVendor (VNum (Fin 99)) s = (Ok None, s, []).
Proof.
  intros s. apply (update_delete_miss s (VNum (Fin 99))).
  intros v Hv.
  repeat (apply elem_of_cons in Hv as [->|Hv]); try reflexivity.
  by apply elem_of_nil in Hv.
Defined.


(** ** The store *)

Section StoreFacts.
Import VendorDataStore.

Lemma state_addVendor (vendor : record) (s : t) :
  state_of (addVendor vendor s) = with_data (data s ++ [vendor]) s.
Proof. by rewrite addVendor_run. Qed.

Lemma state_updateVendor (id : value) (updates : record) (s : t) :
  state_of (updateVendor id updates s)
  = match find s id with
    | Some (index, old) => with_data (<[index := spread old updates]> (data s)) s
    | None => s
    end.
Proof. rewrite updateVendor_run. by destruct (find s id) as [[]|]. Qed.

Lemma state_deleteVendor (id : value) (s : t) :
  state_of (deleteVendor id s)
  = match find s id with
    | Some (index, _) => with_data (delete index (data s)) s
    | None => s
    end.
Proof. rewrite deleteVendor_run. by destruct (find s id) as [[]|]. Qed.


Lemma find_Some (s : t) (id : value) (index : nat) (v : record) :
  find s id = Some (index, v) →
  data s !! index = Some v ∧ has_key s id v.
Proof. unfold find. rewrite list_find_Some. tauto. Qed.



End StoreFacts.





(** ** Commands *)

Section CommandFacts.
Import VendorDataStore.

(** What a command's [execute] returns when it returns, and the store it
    leaves. *)
Lemma execute_Ok (c c1 : Command) (s s1 : t) (t1 : list effect) :
  execute c s = (Ok c1, s1, t1) →
  match c with
  | AddVendorCommand vendor =>
      c1 = AddVendorCommand vendor ∧ s1 = with_data (data s ++ [vendor]) s
  | UpdateVendorCommand id updates _ =>
      c1 = UpdateVendorCommand id updates (snd <$> find s id) ∧
      s1 = match find s id with
           | Some (index, old) =>
               with_data (<[index := spread old updates]> (data s)) s
           | None => s
           end
  | DeleteVendorCommand id _ =>
      c1 = DeleteVendorCommand id (snd <$> find s id) ∧
      s1 = match find s id with
           | Some (index, _) => with_data (delete index (data s)) s
           | None => s
           end
  end.
Proof.
  destruct c as [vendor|id updates p|id p]; cbn [execute]; rewrite bind_run.
  - rewrite addVendor_run.
    destruct (fan_out _ _ _) as [[] ?]; unfold_M; simpl; intros; by simplify_eq.
  - rewrite getVendor_run, bind_run, updateVendor_run.
    destruct (find s id) as [[index old]|]; simpl.
    + destruct (fan_out _ _ _) as [[] ?]; unfold_M; simpl; intros;
        by simplify_eq.
    + unfold_M. intros; by simplify_eq.
  - rewrite deleteVendor_run.
    destruct (find s id) as [[index old]|]; simpl.
    + destruct (fan_out _ _ _) as [[] ?]; unfold_M; simpl; intros;
        by simplify_eq.
    + unfold_M. intros; by simplify_eq.
Qed.

(** The store a command's [undo] leaves, whether or not an observer
    throws. *)
Lemma state_undo (c : Command) (s : t) :
  state_of (undo c s)
  = match c with
    | AddVendorCommand vendor =>
        state_of (deleteVendor (get_field vendor (primaryKey s)) s)
    | UpdateVendorCommand id _ (Some previous) =>
        state_of (updateVendor id previous s)
    | DeleteVendorCommand _ (Some vendor) => state_of (addVendor vendor s)
    | _ => s
    end.
Proof.
  destruct c as [vendor|id updates [p|]|id [p|]]; cbn [undo]; try done.
  - step_M. rewrite bind_run.
    by destruct (deleteVendor _ s) as [[[] ?] ?].
  - rewrite bind_run. by destruct (updateVendor _ _ s) as [[[] ?] ?].
  - rewrite bind_run. by destruct (addVendor _ s) as [[[] ?] ?].
Qed.


Lemma find_with_data (d : list record) (s : t) (id : value) :
  find (with_data d s) id = list_find (has_key s id) d.
Proof. reflexivity. Qed.

(** Overwriting a record with updates that name only fields it has, and
    then with the record itself, gives the record back. *)
Lemma spread_back (old updates : record) :
  dom updates ⊆ dom old → spread (spread old updates) old = old.
Proof.
  intros Hd. unfold spread. apply map_eq. intros k.
  destruct (old !! k) as [v|] eqn:Hk.
  - by apply lookup_union_Some_l.
  - rewrite !lookup_union_r; [done| |done].
    apply not_elem_of_dom. intros Hin%Hd. by apply not_elem_of_dom in Hk.
Qed.

(** Add and its undo. *)
Lemma add_then_delete (vendor : record) (s : t) :
  let k := get_field vendor (primaryKey s) in
  strict_eq k k = true → find s k = None →
  state_of (deleteVendor k (with_data (data s ++ [vendor]) s)) = s.
Proof.
  intros k Hk Hf. rewrite state_deleteVendor, find_with_data.
  unfold find in Hf. rewrite (list_find_app_r _ _ _ Hf).
  cbn [list_find]. rewrite decide_True by done. cbn.
  rewrite (delete_middle (data s) [] vendor), app_nil_r.
  by destruct s.
Qed.

(** Update and its undo. *)
Lemma update_then_update_back (id : value) (updates : record) (s : t)
    (index : nat) (old : record) :
  find s id = Some (index, old) →
  dom updates ⊆ dom old →
  has_key s id (spread old updates) →
  state_of (updateVendor id old
              (with_data (<[index := spread old updates]> (data s)) s)) = s.
Proof.
  intros Hf Hd Hk. rewrite state_updateVendor, find_with_data.
  assert (Hf' := Hf). unfold find in Hf'.
  apply list_find_Some in Hf' as (Hl & Hold & Hleast).
  assert (Hfound : list_find (has_key s id)
            (<[index := spread old updates]> (data s))
          = Some (index, spread old updates)).
  { apply list_find_insert_Some. right; left.
    split_and!; [done..|by eapply lookup_lt_Some|done|].
    intros i z Hz Hi. by eapply Hleast. }
  rewrite Hfound. cbn [data with_data].
  rewrite list_insert_insert_eq, spread_back by done.
  rewrite list_insert_id by done. by destruct s.
Qed.

(** With observers that do not throw, commands return. *)
Lemma execute_returns (c : Command) (s : t) :
  quiet (observers s) →
  ∃ c1 s1 t1, execute c s = (Ok c1, s1, t1) ∧ observers s1 = observers s.
Proof.
  intros Hq.
  destruct c as [vendor|id updates p|id p]; cbn [execute]; rewrite bind_run.
  - rewrite addVendor_run, fan_out_quiet by done. unfold_M. by eexists _, _, _.
  - rewrite getVendor_run, bind_run, updateVendor_run.
    destruct (find s id) as [[index old]|]; cbv zeta;
      rewrite ?fan_out_quiet by done; unfold_M; by eexists _, _, _.
  - rewrite deleteVendor_run.
    destruct (find s id) as [[index old]|];
      rewrite ?fan_out_quiet by done; unfold_M; by eexists _, _, _.
Qed.

Lemma undo_returns (c : Command) (s : t) :
  quiet (observers s) → outcome_of (undo c s) = Ok tt.
Proof.
  intros Hq.
  destruct c as [vendor|id updates [p|]|id [p|]]; cbn [undo]; try done.
  - step_M. rewrite bind_run, deleteVendor_run.
    destruct (find s _) as [[index old]|];
      by rewrite ?fan_out_quiet by done.
  - rewrite bind_run, updateVendor_run.
    destruct (find s _) as [[index old]|]; cbv zeta;
      by rewrite ?fan_out_quiet by done.
  - rewrite bind_run, addVendor_run. by rewrite fan_out_quiet by done.
Qed.

Lemma execute_then_undo_returns (c : Command) (s : t) :
  quiet (observers s) → outcome_of (execute_then_undo c s) = Ok tt.
Proof.
  intros Hq. unfold execute_then_undo. rewrite bind_run.
  destruct (execute_returns c s Hq) as (c1 & s1 & t1 & -> & Hobs).
  rewrite <- Hobs in Hq. pose proof (undo_returns c1 s1 Hq) as Hu.
  by destruct (undo c1 s1) as [[? ?] ?].
Qed.

End CommandFacts.







(** On the three example vendors, deleting the first and undoing moves it
    to the end. *)
Lemma delete_undo_reorders :
  let s := store_of three_vendors [] in
  VendorDataStore.data
    (state_of (execute_then_undo (DeleteVendorCommand (VNum (Fin 1)) None) s))
  = [vendor 2 "Alice"; vendor 3 "Bob"; vendor 1 "Charlie"].
Proof. by vm_compute. Qed.


(** ** Undo/redo history *)

(** With observers that do not throw, [executeCommand] returns. *)
Lemma executeCommand_returns (command : Command) (h : CommandHistory.t)
    (s : VendorDataStore.t) :
  quiet (VendorDataStore.observers s) →
  ∃ h' s' tr, CommandHistory.executeCommand command (h, s) = (Ok tt, (h', s'), tr).
Proof.
  intros Hq. unfold CommandHistory.executeCommand. rewrite bind_run.
  unfold CommandHistory.on_store at 1.
  destruct (execute_returns command s Hq) as (c1 & s1 & t1 & -> & _).
  unfold CommandHistory.with_undoStack, CommandHistory.with_redoStack.
  unfold_M. cbn. by eexists _, _, _.
Qed.




(** ** The view *)

Section ViewFacts.
Context `{Host}.
Import VendorAppState.

Lemma passes_true (s : t) (item : record) :
  passes s item = true ↔ satisfies s item.
Proof.
  unfold passes, satisfies.
  induction (searchFilters s) as [|[column searchTerm] fs IH].
  - split; [constructor|done].
  - cbn [forallb]. rewrite andb_true_iff, Forall_cons, IH. tauto.
Qed.

Lemma passes_satisfies (s : t) (item : record) :
  passes s item = bool_decide (satisfies s item).
Proof.
  destruct (passes s item) eqn:Hp; symmetry.
  - by apply bool_decide_eq_true, passes_true.
  - apply bool_decide_eq_false. intros Hs%passes_true. congruence.
Qed.

Lemma filter_passes (s : t) (l : list record) :
  List.filter (passes s) l = filter (satisfies s) l.
Proof.
  induction l as [|x l IH]; [done|].
  cbn [List.filter]. rewrite filter_cons, IH.
  destruct (passes s x) eqn:Hp; case_decide as Hs; try done.
  - by apply passes_true in Hp.
  - apply passes_true in Hs. congruence.
Qed.

Lemma applyFiltersAndSort_run (s : t) :
  applyFiltersAndSort s
  = (Ok tt,
     with_filteredData
       (if sort_active s
        then strategy_sort (sortStrategy s) (List.filter (passes s) (data s))
               (default "" (sortColumn s)) (sortDirection s)
        else List.filter (passes s) (data s)) s,
     []).
Proof.
  unfold applyFiltersAndSort, modify, sort_active.
  destruct (sortColumn s) as [column|]; [|done].
  by destruct (truthy (VStr column)).
Qed.

(** the assignments at the head of [setSortColumn] *)
Lemma setSortColumn_run (column : string) (s : t) :
  let s0 :=
    if bool_decide (sortColumn s = Some column)
    then with_sortDirection
           (if bool_decide (sortDirection s = asc) then desc else asc) s
    else with_sortDirection asc (with_sortColumn (Some column) s) in
  let s1 := state_of (applyFiltersAndSort s0) in
  setSortColumn column s
  = (Ok tt, s1,
     caught_trace (observers s) "sortChanged" (PSort column (sortDirection s1))).
Proof.
  intros s0 s1. unfold setSortColumn.
  rewrite bind_run. unfold get at 1. cbv beta iota. rewrite bind_run.
  assert (Hhead :
    (if bool_decide (sortColumn s = Some column)
     then modify (with_sortDirection
                    (if bool_decide (sortDirection s = asc) then desc else asc))
     else modify (with_sortColumn (Some column)) ;;
          modify (with_sortDirection asc)) s = (Ok tt, s0, [])).
  { subst s0. by destruct (bool_decide (sortColumn s = Some column)). }
  rewrite Hhead. rewrite bind_run, applyFiltersAndSort_run.
  rewrite bind_run. unfold get at 1. cbv beta iota.
  rewrite notify_run. subst s1. rewrite applyFiltersAndSort_run.
  cbn [state_of fst snd observers with_filteredData sortDirection app].
  assert (Hobs : observers s0 = observers s).
  { subst s0. by destruct (bool_decide (sortColumn s = Some column)). }
  by rewrite Hobs.
Qed.

Lemma passes_ext (s s' : t) (item : record) :
  searchFilters s' = searchFilters s → searchStrategy s' = searchStrategy s →
  passes s' item = passes s item.
Proof. unfold passes. by intros -> ->. Qed.

(** the fields of the view after [setSortColumn column] *)
Lemma setSortColumn_fields (column : string) (s : t) :
  let s1 := state_of (setSortColumn column s) in
  sortColumn s1 = Some column ∧
  sortDirection s1
    = (if bool_decide (sortColumn s = Some column)
       then match sortDirection s with asc => desc | desc => asc end
       else asc) ∧
  data s1 = data s ∧
  searchFilters s1 = searchFilters s ∧
  searchStrategy s1 = searchStrategy s ∧
  sortStrategy s1 = sortStrategy s ∧
  filteredData s1
    = (if truthy (VStr column)
       then strategy_sort (sortStrategy s) (List.filter (passes s) (data s))
              column (sortDirection s1)
       else List.filter (passes s) (data s)).
Proof.
  intros s1. subst s1. rewrite setSortColumn_run.
  cbn [state_of fst snd]. rewrite applyFiltersAndSort_run.
  cbn [state_of fst snd]. unfold sort_active.
  destruct (bool_decide (sortColumn s = Some column)) eqn:Hb.
  - apply bool_decide_eq_true_1 in Hb.
    cbn [with_filteredData with_sortDirection sortColumn sortDirection data
         searchFilters searchStrategy sortStrategy filteredData].
    rewrite Hb. cbn [default from_option id].
    split_and!; try done. by destruct (sortDirection s).
  - cbn [with_filteredData with_sortDirection with_sortColumn sortColumn
         sortDirection data searchFilters searchStrategy sortStrategy
         filteredData default from_option id].
    done.
Qed.

End ViewFacts.

(** C2. With no sort column active, recomputing the view leaves in
    [filteredData] exactly the records of [data] that every active filter
    matches under the active search strategy, as often and in the same
    order as they stand in [data]. *)
Theorem applyFiltersAndSort_filters `{Host} (s : VendorAppState.t) :
  VendorAppState.sort_active s = false →
  let view := VendorAppState.filteredData
                (state_of (VendorAppState.applyFiltersAndSort s)) in
  view = filter (satisfies s) (VendorAppState.data s) ∧
  (∀ item, item ∈ view ↔ item ∈ VendorAppState.data s ∧ satisfies s item) ∧
  view `sublist_of` VendorAppState.data s.
Proof.
  intros Hs view. subst view. rewrite applyFiltersAndSort_run, Hs.
  cbn [state_of fst snd VendorAppState.filteredData
       VendorAppState.with_filteredData].
  rewrite filter_passes. split_and!; [done| |apply sublist_filter].
  intros item. rewrite list_elem_of_filter. tauto.
Qed.

Lemma applyFiltersAndSort_filters_witness :
  let s := view_of [categorised 1 "A"; categorised 2 "B"; categorised 3 "A"]
             [("category", VStr "A")] [] in
  let view := VendorAppState.filteredData
                (state_of (@VendorAppState.applyFiltersAndSort ascii_host s)) in
  view = filter (@satisfies ascii_host s) (VendorAppState.data s) ∧
  (∀ item, item ∈ view ↔
           item ∈ VendorAppState.data s ∧ @satisfies ascii_host s item) ∧
  view `sublist_of` VendorAppState.data s.
Proof.
  intros s. apply (@applyFiltersAndSort_filters ascii_host s). reflexivity.
Defined.

(** The view of the example: the two records of category A, in order. *)
Lemma applyFiltersAndSort_example :
  VendorAppState.filteredData
    (state_of (@VendorAppState.applyFiltersAndSort ascii_host
       (view_of [categorised 1 "A"; categorised 2 "B"; categorised 3 "A"]
          [("category", VStr "A")] [])))
  = [categorised 1 "A"; categorised 3 "A"].
Proof. by vm_compute. Qed.


(** C7. [setSortColumn column] returns; afterwards the sort column is
    [column], and the direction is the opposite of the former direction
    if [column] was the sort column already and ascending otherwise.  On
    a view with no sort column, a first call gives ascending and a second
    descending on [column], and (for a column name other than the empty
    string) the view holds the filtered records sorted by the active sort
    strategy in that direction. *)
Theorem setSortColumn_toggles `{Host} (s : VendorAppState.t) (column : string) :
  let s1 := state_of (VendorAppState.setSortColumn column s) in
  let s2 := state_of (VendorAppState.setSortColumn column s1) in
  let filtered := List.filter (VendorAppState.passes s) (VendorAppState.data s) in
  outcome_of (VendorAppState.setSortColumn column s) = Ok tt ∧
  VendorAppState.sortColumn s1 = Some column ∧
  VendorAppState.sortDirection s1
    = (if bool_decide (VendorAppState.sortColumn s = Some column)
       then match VendorAppState.sortDirection s with
            | asc => desc
            | desc => asc
            end
       else asc) ∧
  (VendorAppState.sortColumn s = None →
     VendorAppState.sortDirection s1 = asc ∧
     VendorAppState.sortColumn s2 = Some column ∧
     VendorAppState.sortDirection s2 = desc ∧
     (column ≠ "" →
        VendorAppState.filteredData s1
          = strategy_sort (VendorAppState.sortStrategy s) filtered column asc ∧
        VendorAppState.filteredData s2
          = strategy_sort (VendorAppState.sortStrategy s) filtered column desc)).
Proof.
  intros s1 s2 filtered.
  destruct (setSortColumn_fields column s)
    as (Hc1 & Hd1 & Hdata1 & Hf1 & Hss1 & Hst1 & Hv1).
  destruct (setSortColumn_fields column s1)
    as (Hc2 & Hd2 & Hdata2 & Hf2 & Hss2 & Hst2 & Hv2).
  fold s1 in Hc1, Hd1, Hdata1, Hf1, Hss1, Hst1, Hv1.
  fold s1 s2 in Hc2, Hd2, Hdata2, Hf2, Hss2, Hst2, Hv2.
  split_and!; [by rewrite setSortColumn_run|done|done|].
  intros Hnone.
  assert (Ha : VendorAppState.sortDirection s1 = asc).
  { rewrite Hd1, bool_decide_eq_false_2; [done|]. by rewrite Hnone. }
  assert (Hb : VendorAppState.sortDirection s2 = desc).
  { by rewrite Hd2, bool_decide_eq_true_2, Ha. }
  split_and!; [done..|].
  intros Hne. rewrite Hv1, Hv2, Ha, Hb, (truthy_nonempty column Hne).
  split; [done|]. rewrite Hst1, Hdata1. subst filtered.
  f_equal. apply filter_ext. intros item. by apply passes_ext.
Qed.

Lemma setSortColumn_toggles_witness :
  let s := view_of three_vendors [] [quiet_observer] in
  let s1 := state_of (@VendorAppState.setSortColumn ascii_host "name" s) in
  let s2 := state_of (@VendorAppState.setSortColumn ascii_host "name" s1) in
  VendorAppState.sortDirection s1 = asc ∧
  VendorAppState.sortDirection s2 = desc ∧
  VendorAppState.filteredData s1
    = [vendor 2 "Alice"; vendor 3 "Bob"; vendor 1 "Charlie"] ∧
  VendorAppState.filteredData s2
    = [vendor 1 "Charlie"; vendor 3 "Bob"; vendor 2 "Alice"].
Proof.
  intros s s1 s2.
  destruct (@setSortColumn_toggles ascii_host s "name")
    as (_ & _ & _ & Htwice).
  destruct (Htwice eq_refl) as (Ha & _ & Hd & Hview).
  destruct (Hview ltac:(done)) as [Hv1 Hv2].
  split_and!; [exact Ha|exact Hd| |].
  - etransitivity; [exact Hv1|]. by vm_compute.
  - etransitivity; [exact Hv2|]. by vm_compute.
Defined.


(** * Further properties *)

(** ** Sorting *)

Section ArraySortOn.
Context {A : Type} (comparefn : A -> A -> num).

(** Sortedness needs the comparator to be consistent on the elements of
    the list only. *)
Lemma sorted_insert_sorted_on (x : A) (l : list A) :
  (∀ y, y ∈ l → ¬ precedes comparefn x y → precedes comparefn y x) →
  (∀ y z, y ∈ l → z ∈ l → precedes comparefn x y → precedes comparefn y z →
          precedes comparefn x z) →
  StronglySorted (precedes comparefn) l →
  StronglySorted (precedes comparefn) (sorted_insert comparefn x l).
Proof.
  intros Htot Htrans Hs. induction Hs as [|y l Hl IH Hy]; simpl.
  - repeat constructor.
  - assert (Hhead : sort_sign (comparefn x y) ≠ Gt →
      StronglySorted (precedes comparefn) (x :: y :: l)).
    { intros Hxy. constructor; [by constructor|]. constructor; [done|].
      apply Forall_forall. intros z Hz.
      apply (Htrans y z); [apply list_elem_of_here|by apply list_elem_of_further|done|].
      rewrite Forall_forall in Hy. by apply Hy. }
    destruct (sort_sign (comparefn x y)) eqn:Hc; [by apply Hhead..|].
    constructor.
    + apply IH.
      * intros z Hz. apply Htot. by apply list_elem_of_further.
      * intros z w Hz Hw. apply Htrans; by apply list_elem_of_further.
    + rewrite sorted_insert_perm. constructor; [|done].
      apply Htot; [apply list_elem_of_here|].
      unfold precedes. rewrite Hc. by intros [].
Qed.

Lemma array_sort_sorted_on (l : list A) :
  (∀ a b, a ∈ l → b ∈ l → ¬ precedes comparefn a b → precedes comparefn b a) →
  (∀ a b c, a ∈ l → b ∈ l → c ∈ l → precedes comparefn a b →
            precedes comparefn b c → precedes comparefn a c) →
  StronglySorted (precedes comparefn) (array_sort comparefn l).
Proof.
  induction l as [|x l IH]; intros Htot Htrans; simpl; [constructor|].
  apply sorted_insert_sorted_on.
  - intros y Hy. apply (proj1 (array_sort_elem_of _ _ _)) in Hy.
    apply Htot; [apply list_elem_of_here|by apply list_elem_of_further].
  - intros y z Hy Hz.
    apply (proj1 (array_sort_elem_of _ _ _)) in Hy.
    apply (proj1 (array_sort_elem_of _ _ _)) in Hz.
    apply Htrans; [apply list_elem_of_here|by apply list_elem_of_further..].
  - apply IH.
    + intros a b Ha Hb. apply Htot; by apply list_elem_of_further.
    + intros a b c Ha Hb Hc. apply Htrans; by apply list_elem_of_further.
Qed.

Lemma filter_all {B : Type} (l : list B) : List.filter (fun _ => true) l = l.
Proof. induction l as [|x l IH]; [done|]. simpl. by rewrite IH. Qed.

(** When all elements compare equal the sort returns its input. *)
Lemma array_sort_all_ties (l : list A) :
  (∀ a b, a ∈ l → b ∈ l → sort_sign (comparefn a b) = Eq) →
  array_sort comparefn l = l.
Proof.
  intros Hties.
  transitivity (List.filter (fun _ => true) (array_sort comparefn l));
    [by rewrite filter_all|].
  rewrite array_sort_filter; [apply filter_all|].
  intros a b Ha Hb _ _. by rewrite Hties.
Qed.

End ArraySortOn.

(** The order of two keys, read off the comparator of the numeric and
    chronological sorters. *)
Lemma precedes_num_leb (d : direction) (x y : num) :
  x ≠ NaN → y ≠ NaN →
  sort_sign (directed d (num_sub x y)) ≠ Gt ↔
  match d with
  | asc => num_leb x y = true
  | desc => num_leb y x = true
  end.
Proof.
  intros Hx Hy.
  destruct d, x as [|[]|x], y as [|[]|y]; simpl; try done;
    rewrite ?bool_decide_eq_true, ?Z.compare_le_iff; try lia;
    split; try done; try lia.
Qed.

Lemma StronglySorted_weaken {A : Type} (R R' : A -> A -> Prop) (l : list A) :
  (∀ a b, a ∈ l → b ∈ l → R a b → R' a b) →
  StronglySorted R l → StronglySorted R' l.
Proof.
  intros Himp Hs. induction Hs as [|x l Hs IH Hx]; constructor.
  - apply IH. intros a b Ha Hb. apply Himp; by apply list_elem_of_further.
  - rewrite Forall_forall in *. intros y Hy.
    apply Himp; [apply list_elem_of_here|by apply list_elem_of_further|].
    by apply Hx.
Qed.

Lemma code_unit_compare_refl (x : string) : code_unit_compare x x = 0%Z.
Proof.
  unfold code_unit_compare.
  pose proof (String.compare_antisym x x) as Ha.
  by destruct (String.compare x x).
Qed.


(** X2. When the date of every record is absent or valid (no key is NaN),
    the chronological sorter returns the records ordered by timestamp in
    the chosen direction. *)
Theorem date_sort_ordered `{Host} (data : list record) (column : string)
    (d : direction) :
  (∀ r, r ∈ data → date_val column r ≠ NaN) →
  strategy_sort DateSortStrategy data column d ≡ₚ data ∧
  StronglySorted (in_order d (date_val column))
    (strategy_sort DateSortStrategy data column d).
Proof.
  intros Hvalid. split; [apply array_sort_perm|].
  assert (Hsorted : StronglySorted (precedes (comparator DateSortStrategy column d))
                      (strategy_sort DateSortStrategy data column d)).
  { apply array_sort_sorted_on.
    - intros a b Ha Hb Hab. unfold precedes, comparator in *.
      cbn [comparison_of] in *.
      apply num_sub_total; [by apply Hvalid..|].
      by destruct (sort_sign _); try (by destruct Hab).
    - intros a b c Ha Hb Hc. unfold precedes, comparator. cbn [comparison_of].
      apply num_sub_trans; by apply Hvalid. }
  eapply StronglySorted_weaken; [|exact Hsorted].
  intros a b Ha Hb. unfold precedes, comparator, in_order. cbn [comparison_of].
  intros Hab.
  apply (precedes_num_leb d) in Hab.
  - by destruct d.
  - apply Hvalid. by apply (proj1 (array_sort_elem_of _ _ _)) in Ha.
  - apply Hvalid. by apply (proj1 (array_sort_elem_of _ _ _)) in Hb.
Qed.

Lemma date_sort_ordered_witness :
  let data : list record :=
    [ {[ "due" := VNum (Fin 300) ]}; ∅; {[ "due" := VNum (Fin 200) ]} ] in
  @strategy_sort ascii_host DateSortStrategy data "due" desc
    = [ {[ "due" := VNum (Fin 300) ]}; {[ "due" := VNum (Fin 200) ]}; ∅ ] ∧
  StronglySorted (in_order desc (@date_val ascii_host "due"))
    (@strategy_sort ascii_host DateSortStrategy data "due" desc).
Proof.
  intros data. split; [by vm_compute|].
  apply (@date_sort_ordered ascii_host data "due" desc).
  intros r Hr. subst data.
  apply elem_of_cons in Hr as [->|Hr]; [by vm_compute|].
  apply elem_of_cons in Hr as [->|Hr]; [by vm_compute|].
  apply elem_of_cons in Hr as [->|Hr]; [by vm_compute|].
  by apply elem_of_nil in Hr.
Defined.

(** X3. Sorting by a column that no record has returns the records in
    their input order, with every strategy and in both directions (on a
    host whose [localeCompare] finds a string equal to itself). *)
Theorem sort_by_missing_column `{Host} (strategy : SortStrategy)
    (data : list record) (column : string) (d : direction) :
  (∀ x, localeCompare x x = 0%Z) →
  (∀ r, r ∈ data → r !! column = None) →
  strategy_sort strategy data column d = data.
Proof.
  intros Hrefl Hmissing. unfold strategy_sort. apply array_sort_all_ties.
  intros a b Ha Hb. unfold comparator. apply sort_sign_directed.
  apply same_key_compares_equal; [done|].
  pose proof (Hmissing a Ha) as Hka. pose proof (Hmissing b Hb) as Hkb.
  destruct strategy.
  - unfold alphabetic_val, get_field. by rewrite Hka, Hkb.
  - unfold numeric_val, get_field. by rewrite Hka, Hkb.
  - by rewrite !date_val_absent.
Qed.

Lemma sort_by_missing_column_witness :
  @strategy_sort ascii_host AlphabeticSortStrategy three_vendors "city" desc
  = three_vendors.
Proof.
  apply (@sort_by_missing_column ascii_host).
  - apply code_unit_compare_refl.
  - intros r Hr. unfold three_vendors in Hr.
    apply elem_of_cons in Hr as [->|Hr]; [by vm_compute|].
    apply elem_of_cons in Hr as [->|Hr]; [by vm_compute|].
    apply elem_of_cons in Hr as [->|Hr]; [by vm_compute|].
    by apply elem_of_nil in Hr.
Defined.

(** ** Search strategies *)

Lemma prefix_refl (s : string) : String.prefix s s = true.
Proof.
  induction s as [|c s IH]; [done|]. cbn [String.prefix].
  by destruct (Ascii.ascii_dec c c).
Qed.

Lemma includes_prefix (s t : string) :
  String.prefix t s = true → includes s t = true.
Proof. intros Hp. destruct s; cbn [includes]; by rewrite Hp. Qed.

Lemma includes_refl (s : string) : includes s s = true.
Proof. apply includes_prefix, prefix_refl. Qed.

(** X4. The search strategies are ordered by strictness: whatever the
    exact strategy matches the case-insensitive one matches, and whatever
    the case-insensitive one matches the partial one matches. *)
Theorem search_strategies_nested `{Host} (v searchTerm : value) :
  (search_match ExactSearchStrategy v searchTerm = true →
   search_match CaseInsensitiveSearchStrategy v searchTerm = true) ∧
  (search_match CaseInsensitiveSearchStrategy v searchTerm = true →
   search_match PartialSearchStrategy v searchTerm = true).
Proof.
  cbn [search_match]. split.
  - intros Heq%bool_decide_eq_true_1. apply bool_decide_eq_true_2. by rewrite Heq.
  - intros Heq%bool_decide_eq_true_1. rewrite Heq. apply includes_refl.
Qed.

Lemma search_strategies_nested_witness :
  @search_match ascii_host CaseInsensitiveSearchStrategy (VStr "Acme") (VStr "Acme") = true ∧
  @search_match ascii_host PartialSearchStrategy (VStr "ACME") (VStr "acme") = true.
Proof.
  destruct (@search_strategies_nested ascii_host (VStr "Acme") (VStr "Acme"))
    as [Hexact _].
  destruct (@search_strategies_nested ascii_host (VStr "ACME") (VStr "acme"))
    as [_ Hcase].
  split; [apply Hexact|apply Hcase]; reflexivity.
Defined.

(** ** The view's mutators *)

Section ViewMutators.
Context `{Host}.
Import VendorAppState.

Lemma view_setData_run (d : list record) (s : t) :
  let s1 := state_of (applyFiltersAndSort (with_data d s)) in
  setData d s
  = (Ok tt, s1, caught_trace (observers s) "dataChanged" (PData (filteredData s1))).
Proof.
  intros s1. unfold setData.
  rewrite bind_run. unfold modify at 1. cbv beta iota.
  rewrite bind_run, applyFiltersAndSort_run.
  rewrite bind_run. unfold get at 1. cbv beta iota.
  rewrite notify_run. subst s1. by rewrite applyFiltersAndSort_run.
Qed.

Lemma view_setColumns_run (c : list string) (s : t) :
  setColumns c s
  = (Ok tt, with_columns c s,
     caught_trace (observers s) "columnsChanged" (PColumns c)).
Proof.
  unfold setColumns. rewrite bind_run. unfold modify at 1. cbv beta iota.
  by rewrite notify_run.
Qed.

(** the filters [setSearchFilter column v] leaves *)
Lemma view_setSearchFilter_run (column : string) (v : value) (s : t) :
  let filters := if truthy v then map_set column v (searchFilters s)
                 else map_delete column (searchFilters s) in
  let s1 := state_of (applyFiltersAndSort (with_searchFilters filters s)) in
  setSearchFilter column v s
  = (Ok tt, s1,
     caught_trace (observers s) "filtersChanged" (PFilters (searchFilters s1))).
Proof.
  intros filters s1. unfold setSearchFilter. rewrite bind_run.
  assert (Hhead :
    (if truthy v
     then modify (fun s => with_searchFilters (map_set column v (searchFilters s)) s)
     else modify (fun s => with_searchFilters (map_delete column (searchFilters s)) s)) s
    = (Ok tt, with_searchFilters filters s, [])).
  { subst filters. by destruct (truthy v). }
  rewrite Hhead. rewrite bind_run, applyFiltersAndSort_run.
  rewrite bind_run. unfold get at 1. cbv beta iota.
  rewrite notify_run. subst s1. by rewrite applyFiltersAndSort_run.
Qed.

(** A recomputation leaves a permutation of the filtered records. *)
Lemma applyFiltersAndSort_shows (s : t) :
  shows_filtered (state_of (applyFiltersAndSort s)).
Proof.
  unfold shows_filtered. rewrite applyFiltersAndSort_run.
  cbn [state_of fst snd filteredData with_filteredData data].
  assert (Hsat : ∀ l, filter (satisfies (with_filteredData l s)) (data s)
                      = List.filter (passes s) (data s)).
  { intros l. rewrite <- filter_passes. apply filter_ext. intros item.
    by apply passes_ext. }
  rewrite Hsat. destruct (sort_active s); [|done].
  apply array_sort_perm.
Qed.

End ViewMutators.


(** ** Filters *)

Lemma map_set_elem_of (k : string) (v : value) (m : list (string * value)) :
  (k, v) ∈ map_set k v m.
Proof.
  induction m as [|[k' v'] m IH]; simpl; [apply list_elem_of_here|].
  case_bool_decide; [apply list_elem_of_here|by apply list_elem_of_further].
Qed.

Lemma map_set_other (k k' : string) (v t : value) (m : list (string * value)) :
  k' ≠ k → (k', t) ∈ map_set k v m ↔ (k', t) ∈ m.
Proof.
  intros Hne. induction m as [|[k0 v0] m IH]; simpl.
  - rewrite list_elem_of_singleton. split; [intros [=]; congruence|].
    intros Hin. by apply elem_of_nil in Hin.
  - case_bool_decide as Hk; rewrite !elem_of_cons; [|by rewrite IH].
    subst k0. split; (intros [[=]|Hin]; [congruence|by right]).
Qed.

Lemma map_set_idemp (k : string) (v : value) (m : list (string * value)) :
  map_set k v (map_set k v m) = map_set k v m.
Proof.
  induction m as [|[k' v'] m IH]; simpl.
  - by rewrite bool_decide_eq_true_2.
  - case_bool_decide as Hk; simpl.
    + by rewrite bool_decide_eq_true_2.
    + rewrite bool_decide_eq_false_2 by done. by rewrite IH.
Qed.

Lemma map_delete_elem_of (k k' : string) (t : value) (m : list (string * value)) :
  (k', t) ∈ map_delete k m ↔ (k', t) ∈ m ∧ k' ≠ k.
Proof.
  unfold map_delete. rewrite !list_elem_of_In, filter_In. cbn [fst].
  rewrite negb_true_iff, bool_decide_eq_false. tauto.
Qed.

Lemma map_delete_idemp (k : string) (m : list (string * value)) :
  map_delete k (map_delete k m) = map_delete k m.
Proof.
  unfold map_delete. induction m as [|[k' v'] m IH]; [done|].
  cbn [List.filter fst]. case_bool_decide as Hk; cbn [negb]; [done|].
  cbn [List.filter fst]. rewrite bool_decide_eq_false_2 by done. cbn [negb].
  by rewrite IH.
Qed.

Section FilterFacts.
Context `{Host}.
Import VendorAppState.

Lemma setSearchFilter_filters (column : string) (v : value) (s : t) :
  searchFilters (state_of (setSearchFilter column v s))
  = (if truthy v then map_set column v (searchFilters s)
     else map_delete column (searchFilters s)) ∧
  searchStrategy (state_of (setSearchFilter column v s)) = searchStrategy s.
Proof.
  rewrite view_setSearchFilter_run, applyFiltersAndSort_run.
  cbn [state_of fst snd searchFilters searchStrategy with_filteredData
       with_searchFilters]. done.
Qed.

End FilterFacts.

(** X6. [setSearchFilter column v] with a truthy [v] makes [v] the
    filter on [column], and every record the view then shows matches it;
    with a falsy [v] it removes the filter on [column].  The filters on
    other columns stay as they are. *)
Theorem setSearchFilter_effect `{Host} (s : VendorAppState.t)
    (column : string) (v : value) :
  let s' := state_of (VendorAppState.setSearchFilter column v s) in
  (if truthy v
   then (column, v) ∈ VendorAppState.searchFilters s' ∧
        Forall (fun item =>
                  search_match (VendorAppState.searchStrategy s)
                    (get_field item column) v = true)
          (VendorAppState.filteredData s')
   else Forall (fun entry => entry.1 ≠ column) (VendorAppState.searchFilters s')) ∧
  Forall (fun entry => entry.1 = column ∨ entry ∈ VendorAppState.searchFilters s)
    (VendorAppState.searchFilters s') ∧
  Forall (fun entry => entry.1 = column ∨ entry ∈ VendorAppState.searchFilters s')
    (VendorAppState.searchFilters s).
Proof.
  intros s'.
  destruct (setSearchFilter_filters column v s) as [Hf Hst]. fold s' in Hf, Hst.
  assert (Hshow : shows_filtered s').
  { subst s'. rewrite view_setSearchFilter_run. apply applyFiltersAndSort_shows. }
  rewrite Hf. destruct (truthy v) eqn:Hv.
  - split_and!.
    + apply map_set_elem_of.
    + apply Forall_forall. intros item Hitem.
      unfold shows_filtered in Hshow. rewrite Hshow in Hitem.
      apply list_elem_of_filter in Hitem as [Hsat _].
      unfold satisfies in Hsat. rewrite Hf, Forall_forall in Hsat.
      specialize (Hsat (column, v) (map_set_elem_of column v _)).
      cbn in Hsat. by rewrite Hst in Hsat.
    + apply Forall_forall. intros [k t] Hin. cbn.
      destruct (decide (k = column)) as [|Hne]; [by left|right].
      by apply map_set_other in Hin.
    + apply Forall_forall. intros [k t] Hin. cbn.
      destruct (decide (k = column)) as [|Hne]; [by left|right].
      by apply map_set_other.
  - split_and!.
    + apply Forall_forall. intros [k t] Hin. cbn.
      by apply map_delete_elem_of in Hin as [_ Hne].
    + apply Forall_forall. intros [k t] Hin. cbn. right.
      by apply map_delete_elem_of in Hin as [Hin _].
    + apply Forall_forall. intros [k t] Hin. cbn.
      destruct (decide (k = column)) as [|Hne]; [by left|right].
      by apply map_delete_elem_of.
Qed.

(** X7. Setting the same filter twice leaves the view in the state the
    first call left it in. *)
Theorem setSearchFilter_idempotent `{Host} (s : VendorAppState.t)
    (column : string) (v : value) :
  state_of (VendorAppState.setSearchFilter column v
              (state_of (VendorAppState.setSearchFilter column v s)))
  = state_of (VendorAppState.setSearchFilter column v s).
Proof.
  rewrite !view_setSearchFilter_run, !applyFiltersAndSort_run.
  cbn [state_of fst snd]. destruct s as [d fd cs pk sc sd sf obs ss st].
  unfold VendorAppState.sort_active, VendorAppState.passes.
  cbn [VendorAppState.with_filteredData VendorAppState.with_searchFilters
       VendorAppState.searchFilters VendorAppState.data
       VendorAppState.filteredData VendorAppState.columns
       VendorAppState.primaryKey VendorAppState.sortColumn
       VendorAppState.sortDirection VendorAppState.observers
       VendorAppState.searchStrategy VendorAppState.sortStrategy].
  destruct (truthy v); by rewrite ?map_set_idemp, ?map_delete_idemp.
Qed.

(** ** Notification by the view's mutators, subscription *)

Lemma caught_trace_notifies {S} (observers : list observer) (event : string)
    (d : payload) (s : S) :
  returns_and_notifies observers event
    (Ok tt, s, caught_trace observers event d).
Proof.
  split; [done|]. apply Forall_forall. intros o Ho. exists d.
  by apply caught_trace_calls.
Qed.

(** X8. The four mutators of the view return normally whatever the
    subscribed observers do (an observer's exception is logged, not
    propagated), and each calls every subscribed observer with its event:
    ['dataChanged'], ['columnsChanged'], ['filtersChanged'],
    ['sortChanged']. *)
Theorem view_mutators_notify_and_return `{Host} (s : VendorAppState.t)
    (d : list record) (cols : list string) (column : string) (v : value) :
  returns_and_notifies (VendorAppState.observers s) "dataChanged"
    (VendorAppState.setData d s) ∧
  returns_and_notifies (VendorAppState.observers s) "columnsChanged"
    (VendorAppState.setColumns cols s) ∧
  returns_and_notifies (VendorAppState.observers s) "filtersChanged"
    (VendorAppState.setSearchFilter column v s) ∧
  returns_and_notifies (VendorAppState.observers s) "sortChanged"
    (VendorAppState.setSortColumn column s).
Proof.
  rewrite view_setData_run, view_setColumns_run, view_setSearchFilter_run,
    setSortColumn_run.
  split_and!; apply caught_trace_notifies.
Qed.

Lemma calls_to_app (id : nat) (t1 t2 : list effect) :
  calls_to id (t1 ++ t2) = calls_to id t1 ++ calls_to id t2.
Proof. unfold calls_to. apply List.filter_app. Qed.

Lemma calls_to_caught_trace (id : nat) (observers : list observer)
    (event : string) (d : payload) :
  id ∉ observer_ids observers →
  calls_to id (caught_trace observers event d) = [].
Proof.
  unfold observer_ids. induction observers as [|o os IH]; intros Hid; [done|].
  rewrite fmap_cons, not_elem_of_cons in Hid. destruct Hid as [Hne Hid].
  change (caught_trace (o :: os) event d)
    with ((Called (observer_id o) event d ::
           match observer_call o event d with
           | Some e => [ConsoleError "Observer error:" e]
           | None => []
           end) ++ caught_trace os event d).
  rewrite calls_to_app, IH by done. rewrite app_nil_r.
  cbn [calls_to List.filter]. rewrite bool_decide_eq_false_2 by done.
  by destruct (observer_call o event d).
Qed.

Lemma calls_to_fan_out (id : nat) (observers : list observer)
    (event : string) (d : payload) :
  id ∉ observer_ids observers →
  calls_to id (snd (fan_out observers event d)) = [].
Proof.
  unfold observer_ids. induction observers as [|o os IH]; intros Hid; [done|].
  rewrite fmap_cons, not_elem_of_cons in Hid. destruct Hid as [Hne Hid].
  cbn [fan_out].
  destruct (observer_call o event d); cbn [snd calls_to List.filter];
    rewrite bool_decide_eq_false_2 by done; [done|].
  by apply IH.
Qed.

Lemma set_delete_ids (o : observer) (observers : list observer) :
  observer_id o ∉ observer_ids (set_delete o observers).
Proof.
  unfold observer_ids, set_delete. intros Hin.
  apply list_elem_of_fmap in Hin as (o' & Hid & Hin).
  apply list_elem_of_In, filter_In in Hin as [_ Hne].
  apply negb_true_iff, bool_decide_eq_false in Hne. congruence.
Qed.

Lemma set_add_ids (o : observer) (observers : list observer) :
  observer_id o ∈ observer_ids (set_add o observers).
Proof.
  unfold observer_ids, set_add. case_bool_decide as Hin; [done|].
  rewrite fmap_app. apply elem_of_app. right. apply list_elem_of_here.
Qed.

Lemma set_add_idemp (o : observer) (observers : list observer) :
  set_add o (set_add o observers) = set_add o observers.
Proof.
  unfold set_add at 1. by rewrite bool_decide_eq_true_2 by apply set_add_ids.
Qed.

(** X9. Subscription behaves as a set: subscribing the same observer a
    second time changes nothing, and once its unsubscribe function has
    run neither the view's [notify] nor the store's [notifyObservers]
    calls it. *)
Theorem subscribe_unsubscribe (o : observer) (event : string) (d : payload)
    (v : VendorAppState.t) (s : VendorDataStore.t) :
  state_of (VendorAppState.subscribe o (state_of (VendorAppState.subscribe o v)))
    = state_of (VendorAppState.subscribe o v) ∧
  state_of (VendorDataStore.subscribe o (state_of (VendorDataStore.subscribe o s)))
    = state_of (VendorDataStore.subscribe o s) ∧
  calls_to (observer_id o)
    (trace_of (VendorAppState.notify event d
                 (state_of (VendorAppState.unsubscribe o v)))) = [] ∧
  calls_to (observer_id o)
    (trace_of (VendorDataStore.notifyObservers event d
                 (state_of (VendorDataStore.unsubscribe o s)))) = [].
Proof.
  split_and!.
  - destruct v. cbn. by rewrite set_add_idemp.
  - destruct s. cbn. by rewrite set_add_idemp.
  - rewrite notify_run. cbn. apply calls_to_caught_trace, set_delete_ids.
  - rewrite notifyObservers_run. cbn. apply calls_to_fan_out, set_delete_ids.
Qed.

(** ** Store lookups after a mutation *)

Section StoreLookups.
Import VendorDataStore.

Lemma has_key_with_data (d : list record) (s : t) (id : value) (v : record) :
  has_key (with_data d s) id v ↔ has_key s id v.
Proof. done. Qed.

Lemma find_after_add (vendor : record) (id : value) (s : t) :
  find (with_data (data s ++ [vendor]) s) id
  = match find s id with
    | Some found => Some found
    | None =>
        if strict_eq (get_field vendor (primaryKey s)) id
        then Some (length (data s), vendor)
        else None
    end.
Proof.
  rewrite find_with_data. unfold find.
  destruct (list_find (has_key s id) (data s)) as [[index old]|] eqn:Hf.
  - by apply list_find_app_l.
  - rewrite (list_find_app_r _ _ _ Hf). cbn [list_find].
    case_decide as Hk; unfold has_key in Hk.
    + by rewrite Hk.
    + by destruct (strict_eq _ id).
Qed.

End StoreLookups.

(** X10. After [addVendor(vendor)], [getVendor(id)] returns what it
    returned before if a record had the key [id]; otherwise it returns
    the new record if its key is strictly equal to [id], and undefined if
    not.  So a record added under a key that is already present is
    shadowed by the older one, and one added under NaN is never found. *)
Theorem getVendor_after_addVendor (vendor : record) (id : value)
    (s : VendorDataStore.t) :
  let s' := state_of (VendorDataStore.addVendor vendor s) in
  outcome_of (VendorDataStore.getVendor id s')
  = Ok (match outcome_of (VendorDataStore.getVendor id s) with
        | Ok (Some old) => Some old
        | _ =>
            if strict_eq (get_field vendor (VendorDataStore.primaryKey s)) id
            then Some vendor else None
        end).
Proof.
  intros s'. subst s'. rewrite state_addVendor, !getVendor_run.
  cbn [outcome_of fst]. rewrite find_after_add.
  destruct (VendorDataStore.find s id) as [[index old]|]; [done|].
  by destruct (strict_eq _ id).
Qed.

(** X11. [updateVendor(id, updates)] on a store that has the key changes
    one position only, the first record with the key: the sequence keeps
    its length, every other position keeps its record, and the record at
    that position takes each field from [updates] where [updates] has it
    and keeps its own value elsewhere.  When the call returns it returns
    that record. *)
Theorem updateVendor_hit (id : value) (updates : record)
    (s : VendorDataStore.t) (index : nat) (old : record) :
  VendorDataStore.find s id = Some (index, old) →
  let s' := state_of (VendorDataStore.updateVendor id updates s) in
  let merged := spread old updates in
  length (VendorDataStore.data s') = length (VendorDataStore.data s) ∧
  VendorDataStore.data s' !! index = Some merged ∧
  (∀ j, j ≠ index → VendorDataStore.data s' !! j = VendorDataStore.data s !! j) ∧
  (∀ field, get_field merged field
            = match updates !! field with
              | Some x => x
              | None => get_field old field
              end) ∧
  (∀ r, outcome_of (VendorDataStore.updateVendor id updates s) = Ok r →
        r = Some merged).
Proof.
  intros Hf s' merged. subst s'. rewrite state_updateVendor, updateVendor_run, Hf.
  cbn [VendorDataStore.data VendorDataStore.with_data outcome_of fst].
  pose proof (find_Some _ _ _ _ Hf) as [Hl _].
  split_and!.
  - apply length_insert.
  - apply list_lookup_insert_eq. by eapply lookup_lt_Some.
  - intros j Hj. by apply list_lookup_insert_ne.
  - intros field. unfold merged, spread, get_field.
    destruct (updates !! field) as [x|] eqn:Hu.
    + by rewrite (lookup_union_Some_l _ _ _ _ Hu).
    + by rewrite lookup_union_r.
  - intros r. cbv zeta. destruct (fan_out _ _ _) as [[] ?]; cbn; [|done].
    by intros [= <-].
Qed.

Lemma updateVendor_hit_witness :
  let s := store_of three_vendors [quiet_observer] in
  let s' := state_of (VendorDataStore.updateVendor (VNum (Fin 2))
                        {[ "name" := VStr "Alicia"; "city" := VStr "Hue" ]} s) in
  VendorDataStore.data s' !! 1%nat
  = Some (spread (vendor 2 "Alice")
            {[ "name" := VStr "Alicia"; "city" := VStr "Hue" ]}) ∧
  VendorDataStore.data s' !! 0%nat = Some (vendor 1 "Charlie").
Proof.
  intros s s'.
  destruct (updateVendor_hit (VNum (Fin 2))
              {[ "name" := VStr "Alicia"; "city" := VStr "Hue" ]} s 1
              (vendor 2 "Alice")) as (_ & Hat & Hother & _); [by vm_compute|].
  split; [exact Hat|].
  etransitivity; [apply (Hother 0%nat); lia|reflexivity].
Defined.

(** X12. [deleteVendor(id)] on a store that has the key removes one
    record, the first with the key, and keeps the others in their order;
    when it returns it returns the removed record.  If no other record
    has the key, [getVendor(id)] is undefined afterwards. *)
Theorem deleteVendor_hit (id : value) (s : VendorDataStore.t) (index : nat)
    (deleted : record) :
  VendorDataStore.find s id = Some (index, deleted) →
  let s' := state_of (VendorDataStore.deleteVendor id s) in
  VendorDataStore.data s' = delete index (VendorDataStore.data s) ∧
  S (length (VendorDataStore.data s')) = length (VendorDataStore.data s) ∧
  VendorDataStore.data s' `sublist_of` VendorDataStore.data s ∧
  VendorDataStore.data s ≡ₚ deleted :: VendorDataStore.data s' ∧
  (∀ r, outcome_of (VendorDataStore.deleteVendor id s) = Ok r →
        r = Some deleted) ∧
  (list_find (VendorDataStore.has_key s id) (delete index (VendorDataStore.data s))
     = None →
   VendorDataStore.getVendor id s' = (Ok None, s', [])).
Proof.
  intros Hf s'. subst s'. rewrite state_deleteVendor, deleteVendor_run, Hf.
  cbn [VendorDataStore.data VendorDataStore.with_data outcome_of fst].
  pose proof (find_Some _ _ _ _ Hf) as [Hl _].
  split_and!.
  - done.
  - rewrite length_delete by eauto.
    apply lookup_lt_Some in Hl. lia.
  - apply sublist_delete.
  - by apply delete_Permutation.
  - intros r. destruct (fan_out _ _ _) as [[] ?]; cbn; [|done].
    by intros [= <-].
  - intros Hnone. rewrite getVendor_run, find_with_data. by rewrite Hnone.
Qed.

Lemma deleteVendor_hit_witness :
  let s := store_of three_vendors [quiet_observer] in
  let s' := state_of (VendorDataStore.deleteVendor (VNum (Fin 2)) s) in
  VendorDataStore.data s' = [vendor 1 "Charlie"; vendor 3 "Bob"] ∧
  VendorDataStore.getVendor (VNum (Fin 2)) s' = (Ok None, s', []).
Proof.
  intros s s'.
  destruct (deleteVendor_hit (VNum (Fin 2)) s 1 (vendor 2 "Alice"))
    as (Hdata & _ & _ & _ & _ & Hgone); [by vm_compute|].
  split; [exact Hdata|]. apply Hgone. by vm_compute.
Defined.

(** X13. When no subscribed observer throws, each mutator of the store
    returns and calls every observer once, in subscription order, with
    its event and payload: ['dataLoaded'] with the new array,
    ['vendorAdded'] with the added record, and, when the key is present,
    ['vendorUpdated'] with the merged record and ['vendorDeleted'] with
    the removed one. *)
Theorem store_mutators_notify (s : VendorDataStore.t) (d : list record)
    (vendor : record) (id : value) (updates : record) :
  quiet (VendorDataStore.observers s) →
  let called event p :=
    (fun o => Called (observer_id o) event p) <$> VendorDataStore.observers s in
  (outcome_of (VendorDataStore.setData d s) = Ok tt ∧
   trace_of (VendorDataStore.setData d s) = called "dataLoaded" (PArray d)) ∧
  (outcome_of (VendorDataStore.addVendor vendor s) = Ok vendor ∧
   trace_of (VendorDataStore.addVendor vendor s)
     = called "vendorAdded" (PVendor vendor)) ∧
  match VendorDataStore.find s id with
  | Some (index, found) =>
      (outcome_of (VendorDataStore.updateVendor id updates s)
         = Ok (Some (spread found updates)) ∧
       trace_of (VendorDataStore.updateVendor id updates s)
         = called "vendorUpdated" (PVendor (spread found updates))) ∧
      (outcome_of (VendorDataStore.deleteVendor id s) = Ok (Some found) ∧
       trace_of (VendorDataStore.deleteVendor id s)
         = called "vendorDeleted" (PVendor found))
  | None => True
  end.
Proof.
  intros Hq called.
  assert (Hfan : ∀ event p,
    fan_out (VendorDataStore.observers s) event p = (Ok tt, called event p)).
  { intros event p. pose proof (notifyObservers_quiet event p s Hq) as Hn.
    rewrite notifyObservers_run in Hn.
    destruct (fan_out _ _ _) as [r tr]. cbn in Hn. by simplify_eq. }
  rewrite setData_run, addVendor_run, updateVendor_run, deleteVendor_run.
  destruct (VendorDataStore.find s id) as [[index found]|];
    cbv zeta; rewrite !Hfan; done.
Qed.

Lemma store_mutators_notify_witness :
  let s := store_of three_vendors [quiet_observer] in
  trace_of (VendorDataStore.addVendor (vendor 4 "Dora") s)
  = [Called 2 "vendorAdded" (PVendor (vendor 4 "Dora"))].
Proof.
  intros s.
  destruct (store_mutators_notify s [] (vendor 4 "Dora") VUndef ∅)
    as (_ & [_ Hadd] & _).
  - intros o event d Ho. apply list_elem_of_singleton in Ho. by subst o.
  - exact Hadd.
Defined.

(** ** Undo/redo history: running the three methods *)

Lemma executeCommand_run (command : Command) (h : CommandHistory.t)
    (s : VendorDataStore.t) :
  CommandHistory.executeCommand command (h, s)
  = match execute command s with
    | (Ok c1, s1, t1) =>
        (Ok tt, (CommandHistory.mk (CommandHistory.undoStack h ++ [c1]) [], s1), t1)
    | (Throw e, s1, t1) => (Throw e, (h, s1), t1)
    end.
Proof.
  unfold CommandHistory.executeCommand. rewrite bind_run.
  unfold CommandHistory.on_store at 1.
  destruct (execute command s) as [[[c1|e] s1] t1]; [|done].
  unfold CommandHistory.with_undoStack, CommandHistory.with_redoStack.
  unfold_M. cbn. by rewrite app_nil_r.
Qed.

Lemma history_undo_run (h : CommandHistory.t) (s : VendorDataStore.t) :
  CommandHistory.undo (h, s)
  = match last (CommandHistory.undoStack h) with
    | Some command =>
        match undo command s with
        | (Ok _, s1, t1) =>
            (Ok tt,
             (CommandHistory.mk (removelast (CommandHistory.undoStack h))
                (CommandHistory.redoStack h ++ [command]), s1), t1)
        | (Throw e, s1, t1) =>
            (Throw e,
             (CommandHistory.mk (removelast (CommandHistory.undoStack h))
                (CommandHistory.redoStack h), s1), t1)
        end
    | None =>
        (Ok tt,
         (CommandHistory.mk (removelast (CommandHistory.undoStack h))
            (CommandHistory.redoStack h), s), [])
    end.
Proof.
  unfold CommandHistory.undo, CommandHistory.with_undoStack,
    CommandHistory.with_redoStack, CommandHistory.on_store.
  unfold_M. cbn.
  destruct (last (CommandHistory.undoStack h)) as [command|]; [|done].
  destruct (undo command s) as [[[[]|e] s1] t1]; cbn; by rewrite ?app_nil_r.
Qed.

Lemma history_redo_run (h : CommandHistory.t) (s : VendorDataStore.t) :
  CommandHistory.redo (h, s)
  = match last (CommandHistory.redoStack h) with
    | Some command =>
        match execute command s with
        | (Ok c1, s1, t1) =>
            (Ok tt,
             (CommandHistory.mk (CommandHistory.undoStack h ++ [c1])
                (removelast (CommandHistory.redoStack h)), s1), t1)
        | (Throw e, s1, t1) =>
            (Throw e,
             (CommandHistory.mk (CommandHistory.undoStack h)
                (removelast (CommandHistory.redoStack h)), s1), t1)
        end
    | None =>
        (Ok tt,
         (CommandHistory.mk (CommandHistory.undoStack h)
            (removelast (CommandHistory.redoStack h)), s), [])
    end.
Proof.
  unfold CommandHistory.redo, CommandHistory.with_undoStack,
    CommandHistory.with_redoStack, CommandHistory.on_store.
  unfold_M. cbn.
  destruct (last (CommandHistory.redoStack h)) as [command|]; [|done].
  destruct (execute command s) as [[[c1|e] s1] t1]; cbn; by rewrite ?app_nil_r.
Qed.

(** X14. On an empty stack ([canUndo()], respectively [canRedo()], is
    false) [undo()], respectively [redo()], returns without touching the
    store, the stacks or any observer. *)
Theorem undo_redo_on_empty_stack (h : CommandHistory.t) (s : VendorDataStore.t) :
  (CommandHistory.canUndo (h, s) = (Ok false, (h, s), []) →
   CommandHistory.undo (h, s) = (Ok tt, (h, s), [])) ∧
  (CommandHistory.canRedo (h, s) = (Ok false, (h, s), []) →
   CommandHistory.redo (h, s) = (Ok tt, (h, s), [])).
Proof.
  destruct h as [us rs]. split.
  - intros Hcan. rewrite history_undo_run.
    destruct us as [|c us]; [done|].
    unfold CommandHistory.canUndo in Hcan. unfold_M.
    cbn [CommandHistory.undoStack length] in Hcan.
    rewrite bool_decide_eq_false_2 in Hcan by done. by cbn in Hcan.
  - intros Hcan. rewrite history_redo_run.
    destruct rs as [|c rs]; [done|].
    unfold CommandHistory.canRedo in Hcan. unfold_M.
    cbn [CommandHistory.redoStack length] in Hcan.
    rewrite bool_decide_eq_false_2 in Hcan by done. by cbn in Hcan.
Qed.

Lemma undo_redo_on_empty_stack_witness :
  let h := CommandHistory.mk [] [] in
  let s := store_of three_vendors [faulty_observer] in
  CommandHistory.undo (h, s) = (Ok tt, (h, s), []) ∧
  CommandHistory.redo (h, s) = (Ok tt, (h, s), []).
Proof.
  intros h s. destruct (undo_redo_on_empty_stack h s) as [Hu Hr].
  split; [apply Hu|apply Hr]; reflexivity.
Defined.

Section ReplayFacts.
Import VendorDataStore.

Lemma with_data_with_data (d d' : list record) (s : t) :
  with_data d (with_data d' s) = with_data d s.
Proof. by destruct s. Qed.

Lemma with_data_data (s : t) : with_data (data s) s = s.
Proof. by destruct s. Qed.

Lemma observers_state_undo (c : Command) (s : t) :
  observers (state_of (undo c s)) = observers s.
Proof.
  rewrite state_undo. destruct c as [vendor|id updates [p|]|id [p|]]; try done.
  - rewrite state_deleteVendor. by destruct (find s _) as [[]|].
  - rewrite state_updateVendor. by destruct (find s _) as [[]|].
  - by rewrite state_addVendor.
Qed.

(** Undoing an executed command restores the store when the command is
    reversible, up to the order of the records after a delete. *)
Lemma undo_after_execute (c c1 : Command) (s s1 : t) (t1 : list effect) :
  reversible s c → execute c s = (Ok c1, s1, t1) →
  data (state_of (undo c1 s1)) ≡ₚ data s ∧
  match c with
  | DeleteVendorCommand _ _ => True
  | _ => state_of (undo c1 s1) = s
  end.
Proof.
  intros Hrev Hex. apply execute_Ok in Hex. rewrite state_undo.
  destruct c as [vendor|id updates p|id p]; cbn [reversible] in Hrev;
    destruct Hex as [-> ->].
  - destruct Hrev as [Hk Hf]. cbn [primaryKey with_data].
    by rewrite (add_then_delete vendor s Hk Hf).
  - destruct (find s id) as [[index old]|] eqn:Hf; [|done].
    destruct (Hrev index old eq_refl) as [Hd Hk].
    cbn [fmap option_fmap option_map snd].
    by rewrite (update_then_update_back id updates s index old Hf Hd Hk).
  - destruct (find s id) as [[index old]|] eqn:Hf; [|done].
    cbn [fmap option_fmap option_map snd]. rewrite state_addVendor.
    cbn [data with_data]. split; [|done].
    apply find_Some in Hf as [Hl _].
    rewrite (delete_Permutation _ _ _ Hl) at 2.
    by rewrite Permutation_app_comm.
Qed.

(** Executing the command again after its undo gives the command object
    and the store of the first execution. *)
Lemma replay_after_undo (c c1 c2 : Command) (s s1 s3 : t)
    (t1 t3 : list effect) :
  replayable s c → execute c s = (Ok c1, s1, t1) →
  execute c1 (state_of (undo c1 s1)) = (Ok c2, s3, t3) →
  c2 = c1 ∧ s3 = s1.
Proof.
  intros Hrep Hex Hex2.
  destruct c as [vendor|id updates p|id p].
  - destruct (undo_after_execute _ _ _ _ _ Hrep Hex) as [_ Hs].
    rewrite Hs in Hex2. apply execute_Ok in Hex as [-> ->].
    by apply execute_Ok in Hex2 as [-> ->].
  - destruct (undo_after_execute _ _ _ _ _ Hrep Hex) as [_ Hs].
    rewrite Hs in Hex2. apply execute_Ok in Hex as [-> ->].
    by apply execute_Ok in Hex2 as [-> ->].
  - cbn [replayable] in Hrep. apply execute_Ok in Hex as [-> ->].
    rewrite state_undo in Hex2.
    destruct (find s id) as [[index old]|] eqn:Hf;
      cbn [fmap option_fmap option_map snd] in *.
    + specialize (Hrep index old eq_refl).
      rewrite state_addVendor in Hex2. cbn [data with_data] in Hex2.
      rewrite with_data_with_data in Hex2.
      apply execute_Ok in Hex2 as [-> ->].
      pose proof (find_after_add old id (with_data (delete index (data s)) s))
        as Hfa.
      cbn [data with_data primaryKey] in Hfa.
      rewrite with_data_with_data in Hfa. rewrite Hfa, find_with_data, Hrep.
      apply find_Some in Hf as [_ Hk]. unfold has_key in Hk. rewrite Hk.
      cbn [fmap option_fmap option_map snd data with_data]. split; [done|].
      rewrite (delete_middle (delete index (data s)) [] old), app_nil_r.
      by rewrite with_data_with_data.
    + apply execute_Ok in Hex2 as [-> ->]. by rewrite Hf.
Qed.

End ReplayFacts.

(** X15. With observers that do not throw and a replayable command,
    [executeCommand], [undo], [redo] in a row return and leave the store
    and both stacks exactly as [executeCommand] alone does: redo restores
    what undo took back. *)
Theorem undo_then_redo (command : Command) (h : CommandHistory.t)
    (s : VendorDataStore.t) :
  quiet (VendorDataStore.observers s) →
  replayable s command →
  let thrice : M CommandHistory.state unit :=
    CommandHistory.executeCommand command ;;
    CommandHistory.undo ;;
    CommandHistory.redo in
  outcome_of (thrice (h, s)) = Ok tt ∧
  state_of (thrice (h, s))
    = state_of (CommandHistory.executeCommand command (h, s)).
Proof.
  intros Hq Hrep thrice. subst thrice.
  rewrite bind_run, executeCommand_run.
  destruct (execute_returns command s Hq) as (c1 & s1 & t1 & Hex & Hobs1).
  rewrite Hex. cbv beta iota. rewrite bind_run, history_undo_run.
  cbn [CommandHistory.undoStack CommandHistory.redoStack].
  rewrite last_snoc, removelast_last.
  assert (Hq1 : quiet (VendorDataStore.observers s1)) by (by rewrite Hobs1).
  pose proof (undo_returns c1 s1 Hq1) as Hun.
  pose proof (observers_state_undo c1 s1) as Hobs2.
  destruct (undo c1 s1) as [[[[]|e] s2] t2] eqn:Hundo; [|done].
  cbn [state_of fst snd] in Hobs2. cbv beta iota.
  rewrite history_redo_run.
  cbn [CommandHistory.undoStack CommandHistory.redoStack app last removelast].
  assert (Hq2 : quiet (VendorDataStore.observers s2)) by (by rewrite Hobs2).
  destruct (execute_returns c1 s2 Hq2) as (c2 & s3 & t3 & Hex2 & _).
  rewrite Hex2.
  assert (Hsame : c2 = c1 ∧ s3 = s1).
  { eapply (replay_after_undo command c1 c2 s s1 s3); [done..|].
    by rewrite Hundo. }
  destruct Hsame as [-> ->]. done.
Qed.

Lemma undo_then_redo_witness :
  let h := CommandHistory.mk [] [] in
  let s := store_of three_vendors [quiet_observer] in
  let command := DeleteVendorCommand (VNum (Fin 1)) None in
  state_of ((CommandHistory.executeCommand command ;;
             CommandHistory.undo ;;
             CommandHistory.redo : M CommandHistory.state unit) (h, s))
  = (CommandHistory.mk [DeleteVendorCommand (VNum (Fin 1)) (Some (vendor 1 "Charlie"))] [],
     store_of [vendor 2 "Alice"; vendor 3 "Bob"] [quiet_observer]).
Proof.
  intros h s command.
  destruct (undo_then_redo command h s) as [_ Hstate].
  - intros o event d Ho. apply list_elem_of_singleton in Ho. by subst o.
  - intros index deleted Hf.
    assert (Hfound : VendorDataStore.find s (VNum (Fin 1))
                     = Some (0%nat, vendor 1 "Charlie")) by (by vm_compute).
    assert (Hindex : index = 0%nat) by congruence. subst index.
    by vm_compute.
  - etransitivity; [exact Hstate|]. by vm_compute.
Defined.

(** X16. With observers that do not throw and a reversible command,
    [executeCommand] followed by [undo] returns, leaves the undo stack as
    it was before, the executed command alone on the redo stack (so
    [canRedo()] holds), and the store with the same records as before. *)
Theorem executeCommand_then_undo (command : Command) (h : CommandHistory.t)
    (s : VendorDataStore.t) :
  quiet (VendorDataStore.observers s) →
  reversible s command →
  let twice : M CommandHistory.state unit :=
    CommandHistory.executeCommand command ;; CommandHistory.undo in
  ∃ executed s',
    outcome_of (execute command s) = Ok executed ∧
    outcome_of (twice (h, s)) = Ok tt ∧
    state_of (twice (h, s))
      = (CommandHistory.mk (CommandHistory.undoStack h) [executed], s') ∧
    store_equal (VendorDataStore.data s') (VendorDataStore.data s) ∧
    outcome_of (CommandHistory.canRedo (state_of (twice (h, s)))) = Ok true.
Proof.
  intros Hq Hrev twice. subst twice.
  rewrite bind_run, executeCommand_run.
  destruct (execute_returns command s Hq) as (c1 & s1 & t1 & Hex & Hobs1).
  rewrite Hex. cbv beta iota. rewrite history_undo_run.
  cbn [CommandHistory.undoStack CommandHistory.redoStack].
  rewrite last_snoc, removelast_last.
  assert (Hq1 : quiet (VendorDataStore.observers s1)) by (by rewrite Hobs1).
  pose proof (undo_returns c1 s1 Hq1) as Hun.
  destruct (undo_after_execute _ _ _ _ _ Hrev Hex) as [Hperm _].
  destruct (undo c1 s1) as [[[[]|e] s2] t2] eqn:Hundo; [|done].
  exists c1, s2. by split_and!.
Qed.

Lemma executeCommand_then_undo_witness :
  let h := CommandHistory.mk [] [AddVendorCommand (vendor 9 "Old")] in
  let s := store_of three_vendors [quiet_observer] in
  ∃ s', state_of ((CommandHistory.executeCommand (AddVendorCommand (vendor 4 "Dora")) ;;
                   CommandHistory.undo : M CommandHistory.state unit) (h, s))
        = (CommandHistory.mk [] [AddVendorCommand (vendor 4 "Dora")], s') ∧
        store_equal (VendorDataStore.data s') three_vendors.
Proof.
  intros h s.
  destruct (executeCommand_then_undo (AddVendorCommand (vendor 4 "Dora")) h s)
    as (executed & s' & Hex & _ & Hstate & Heq & _).
  - intros o event d Ho. apply list_elem_of_singleton in Ho. by subst o.
  - split; by vm_compute.
  - exists s'. split; [|exact Heq].
    assert (Hexecuted : executed = AddVendorCommand (vendor 4 "Dora")).
    { assert (Hok : outcome_of (execute (AddVendorCommand (vendor 4 "Dora")) s)
                    = Ok (AddVendorCommand (vendor 4 "Dora"))) by reflexivity.
      congruence. }
    by rewrite Hstate, Hexecuted.
Defined.

(** X17. A command whose [execute] throws (an observer of the store
    threw) is not recorded: [executeCommand] leaves both stacks as they
    were, the redo stack uncleared, and [redo], which has popped the
    command already, loses it from both stacks.  In the same way [undo]
    loses a command whose [undo] throws.  The store keeps the mutation
    made before the throw. *)
Theorem throwing_command_is_dropped (command : Command) (h : CommandHistory.t)
    (s : VendorDataStore.t) :
  (∀ e s1 t1, execute command s = (Throw e, s1, t1) →
     CommandHistory.executeCommand command (h, s) = (Throw e, (h, s1), t1) ∧
     (last (CommandHistory.redoStack h) = Some command →
      CommandHistory.redo (h, s)
      = (Throw e,
         (CommandHistory.mk (CommandHistory.undoStack h)
            (removelast (CommandHistory.redoStack h)), s1), t1))) ∧
  (∀ e s1 t1, undo command s = (Throw e, s1, t1) →
     last (CommandHistory.undoStack h) = Some command →
     CommandHistory.undo (h, s)
     = (Throw e,
        (CommandHistory.mk (removelast (CommandHistory.undoStack h))
           (CommandHistory.redoStack h), s1), t1)).
Proof.
  split.
  - intros e s1 t1 Hex. split.
    + by rewrite executeCommand_run, Hex.
    + intros Hlast. by rewrite history_redo_run, Hlast, Hex.
  - intros e s1 t1 Hun Hlast. by rewrite history_undo_run, Hlast, Hun.
Qed.

Lemma throwing_command_is_dropped_witness :
  let command := AddVendorCommand (vendor 5 "X") in
  let h := CommandHistory.mk [] [command] in
  let s := store_of [] [faulty_observer] in
  CommandHistory.redo (h, s)
  = (Throw (Error "render failed"),
     (CommandHistory.mk [] [], store_of [vendor 5 "X"] [faulty_observer]),
     [Called 1 "vendorAdded" (PVendor (vendor 5 "X"))]).
Proof.
  intros command h s.
  destruct (throwing_command_is_dropped command h s) as [Hexecute _].
  destruct (Hexecute (Error "render failed")
              (store_of [vendor 5 "X"] [faulty_observer])
              [Called 1 "vendorAdded" (PVendor (vendor 5 "X"))])
    as [_ Hredo]; [reflexivity|].
  apply Hredo. reflexivity.
Defined.

(** ** StatisticsCalculator *)








(** Strictly equal values are the same value. *)
Lemma strict_eq_eq (a b : value) : strict_eq a b = true → a = b.
Proof.
  destruct a as [| |x|[|sx|x]|x], b as [| |y|[|sy|y]|y]; simpl; try done;
    by intros ->%bool_decide_eq_true_1.
Qed.

Lemma filter_length_find (P : record -> Prop) `{!∀ x, Decision (P x)}
    (l : list record) :
  length (List.filter (fun x => bool_decide (P x)) l) = 0%nat ↔ list_find P l = None.
Proof.
  rewrite list_find_None. induction l as [|x l IH]; cbn.
  - split; [constructor|done].
  - rewrite Forall_cons. case_bool_decide as Hx; cbn.
    + split; [done|]. by intros [Hn _].
    + rewrite IH. tauto.
Qed.

Lemma keyed_at_most_once (key : record -> value) (k : value) (l : list record) :
  NoDup (key <$> l) →
  (length (List.filter (fun x => strict_eq (key x) k) l) ≤ 1)%nat.
Proof.
  induction l as [|x l IH]; cbn; [lia|]. intros [Hx Hl]%NoDup_cons.
  destruct (strict_eq (key x) k) eqn:Hk; [|by apply IH].
  apply strict_eq_eq in Hk. subst k. cbn.
  assert (Hnone : List.filter (fun y => strict_eq (key y) (key x)) l = []).
  { destruct (List.filter _ l) as [|y ys] eqn:Hf; [done|]. exfalso.
    assert (Hy : In y (List.filter (fun y => strict_eq (key y) (key x)) l))
      by (rewrite Hf; by left).
    apply filter_In in Hy as [Hy Hyk]. apply strict_eq_eq in Hyk.
    apply Hx. rewrite <- Hyk. by apply list_elem_of_fmap_2, list_elem_of_In. }
  rewrite Hnone. cbn. lia.
Qed.

(** X19. Counting the records of a store whose key field is strictly
    equal to [id] gives 0 exactly when [getVendor(id)] is undefined, gives
    0 for NaN, and gives at most 1 when the keys of the store are
    distinct. *)
Theorem count_by_key (s : VendorDataStore.t) (id : value) :
  let n := StatisticsCalculator.count (VendorDataStore.data s)
             (VendorDataStore.primaryKey s) id in
  (n = 0%nat ↔ VendorDataStore.getVendor id s = (Ok None, s, [])) ∧
  StatisticsCalculator.count (VendorDataStore.data s)
    (VendorDataStore.primaryKey s) (VNum NaN) = 0%nat ∧
  (unique_keys s → (n ≤ 1)%nat).
Proof.
  intros n. subst n. unfold StatisticsCalculator.count. split_and!.
  - assert (Hsame : List.filter (fun item =>
                        strict_eq (get_field item (VendorDataStore.primaryKey s)) id)
                        (VendorDataStore.data s)
                    = List.filter (fun x => bool_decide (VendorDataStore.has_key s id x))
                        (VendorDataStore.data s)).
    { apply filter_ext. intros item.
      case_bool_decide as Hk; unfold VendorDataStore.has_key in Hk; [done|].
      by destruct (strict_eq _ id). }
    rewrite Hsame, filter_length_find, getVendor_run.
    fold (VendorDataStore.find s id).
    destruct (VendorDataStore.find s id) as [[index found]|]; cbn; [|done].
    split; [done|]. intros [=].
  - induction (VendorDataStore.data s) as [|x l IH]; [done|]. cbn.
    assert (Hnan : strict_eq (get_field x (VendorDataStore.primaryKey s)) (VNum NaN) = false).
    { destruct (get_field x _) as [| |b|[|sx|z]|str]; done. }
    by rewrite Hnan.
  - unfold unique_keys, keys. apply keyed_at_most_once.
Qed.

Lemma count_by_key_witness :
  (StatisticsCalculator.count three_vendors "id" (VNum (Fin 2)) ≤ 1)%nat.
Proof.
  destruct (count_by_key (store_of three_vendors []) (VNum (Fin 2)))
    as (_ & _ & Hunique).
  apply Hunique. apply (bool_decide_unpack _). by vm_compute.
Defined.

Section GroupByFacts.
Context `{Host}.
Import StatisticsCalculator.

Lemma groupBy_from_groups (data : list record) (field : string)
    (groups : gmap string (list record)) :
  Forall (fun item => group_key field item ∉ object_prototype_keys) data →
  ∃ result, groupBy_from groups data field = Ok result ∧
    ∀ key, result !! key
           = match groups !! key with
             | Some group => Some (group ++ keyed field key data)
             | None => group_of (keyed field key data)
             end.
Proof.
  revert groups. induction data as [|item rest IH]; intros groups Hok.
  - exists groups. split; [done|]. intros key. cbn.
    destruct (groups !! key); by rewrite ?app_nil_r.
  - apply Forall_cons in Hok as [Hitem Hrest]. cbn [groupBy_from].
    set (key0 := group_key field item).
    destruct (groups !! key0) as [group|] eqn:Hg.
    + destruct (IH (<[key0 := group ++ [item]]> groups) Hrest)
        as (result & Hres & Hlook).
      exists result. split; [done|]. intros key. rewrite Hlook.
      unfold keyed. cbn [List.filter]. fold key0.
      destruct (decide (key0 = key)) as [<-|Hne].
      * rewrite lookup_insert_eq, Hg, bool_decide_eq_true_2 by done.
        by rewrite <- app_assoc.
      * rewrite lookup_insert_ne by done.
        by rewrite bool_decide_eq_false_2 by done.
    + rewrite bool_decide_eq_false_2 by done.
      destruct (IH (<[key0 := [item]]> groups) Hrest) as (result & Hres & Hlook).
      exists result. split; [done|]. intros key. rewrite Hlook.
      unfold keyed. cbn [List.filter]. fold key0.
      destruct (decide (key0 = key)) as [<-|Hne].
      * by rewrite lookup_insert_eq, Hg, bool_decide_eq_true_2 by done.
      * rewrite lookup_insert_ne by done.
        by rewrite bool_decide_eq_false_2 by done.
Qed.

Lemma groupBy_from_throws (data : list record) (field : string)
    (groups : gmap string (list record)) :
  (∀ key, key ∈ object_prototype_keys → groups !! key = None) →
  Exists (fun item => group_key field item ∈ object_prototype_keys) data →
  ∃ e, groupBy_from groups data field = Throw e.
Proof.
  revert groups. induction data as [|item rest IH]; intros groups Hown Hbad.
  - by apply Exists_nil in Hbad.
  - cbn [groupBy_from]. set (key0 := group_key field item).
    destruct (decide (key0 ∈ object_prototype_keys)) as [Hin|Hnin].
    + rewrite (Hown key0 Hin), bool_decide_eq_true_2 by done. by eexists.
    + apply Exists_cons in Hbad as [Hbad|Hbad]; [done|].
      assert (Hown' : ∀ group key, key ∈ object_prototype_keys →
                        <[key0 := group]> groups !! key = None).
      { intros group key Hkey. rewrite lookup_insert_ne; [by apply Hown|].
        by intros ->. }
      destruct (groups !! key0) as [group|].
      * apply IH; [apply Hown'|done].
      * rewrite bool_decide_eq_false_2 by done. apply IH; [apply Hown'|done].
Qed.

End GroupByFacts.

(** X20. [groupBy] returns, for each value of the field (as a property
    key), the records that have it, in input order, and no group for a
    value no record has, provided no record's key is a property name that
    objects inherit ('constructor', 'toString', '__proto__', ...).  If
    some record has such a key the call throws: the inherited property
    makes the group look present, and it has no [push]. *)
Theorem groupBy_groups `{Host} (data : list record) (field : string) :
  (Forall (fun item => StatisticsCalculator.group_key field item
                       ∉ object_prototype_keys) data →
   ∃ groups, StatisticsCalculator.groupBy data field = Ok groups ∧
             ∀ key, groups !! key = group_of (keyed field key data)) ∧
  (Exists (fun item => StatisticsCalculator.group_key field item
                       ∈ object_prototype_keys) data →
   ∃ e, StatisticsCalculator.groupBy data field = Throw e).
Proof.
  split.
  - intros Hok. destruct (groupBy_from_groups data field ∅ Hok)
      as (groups & Hres & Hlook).
    exists groups. split; [done|]. intros key. by rewrite Hlook, lookup_empty.
  - intros Hbad. apply groupBy_from_throws; [|done].
    intros key _. apply lookup_empty.
Qed.

Lemma groupBy_groups_witness :
  (∃ groups,
     @StatisticsCalculator.groupBy ascii_host
       [categorised 1 "A"; categorised 2 "B"; categorised 3 "A"] "category"
     = Ok groups ∧
     groups !! "A" = Some [categorised 1 "A"; categorised 3 "A"] ∧
     groups !! "C" = None) ∧
  (∃ e, @StatisticsCalculator.groupBy ascii_host
          [categorised 1 "A"; categorised 2 "constructor"] "category"
        = Throw e).
Proof.
  split.
  - destruct (@groupBy_groups ascii_host
                [categorised 1 "A"; categorised 2 "B"; categorised 3 "A"]
                "category") as [Hok _].
    destruct Hok as (groups & Hres & Hlook).
    { repeat constructor; apply (bool_decide_unpack _); by vm_compute. }
    exists groups. split_and!; [done|rewrite Hlook; by vm_compute..].
  - destruct (@groupBy_groups ascii_host
                [categorised 1 "A"; categorised 2 "constructor"] "category")
      as [_ Hthrow].
    apply Hthrow. apply Exists_cons_tl, Exists_cons_hd.
    apply (bool_decide_unpack _). by vm_compute.
Defined.

(** ** Validator *)

Lemma first_failure_snoc (rs : list Validator.rule) (r : Validator.rule)
    (v : value) :
  Validator.first_failure (rs ++ [r]) v
  = if Validator.fails (Validator.first_failure rs v)
    then Validator.first_failure rs v
    else if Validator.fails (r v) then r v else {[ "valid" := VBool true ]}.
Proof.
  induction rs as [|r0 rs IH]; cbn [app Validator.first_failure].
  - assert (Hpass : Validator.fails {[ "valid" := VBool true ]} = false)
      by (by vm_compute).
    by rewrite Hpass.
  - destruct (Validator.fails (r0 v)) eqn:Hf; [by rewrite Hf|done].
Qed.

Lemma first_failure_passes (rs : list Validator.rule) (v : value) :
  Validator.fails (Validator.first_failure rs v) = false ↔
  Forall (fun r => Validator.fails (r v) = false) rs.
Proof.
  induction rs as [|r rs IH]; cbn [Validator.first_failure].
  - split; [constructor|]. intros _. by vm_compute.
  - rewrite Forall_cons. destruct (Validator.fails (r v)) eqn:Hf.
    + rewrite Hf. split; [done|]. by intros [? _].
    + rewrite IH. tauto.
Qed.

Lemma first_failure_fails (rs : list Validator.rule) (v : value) :
  Validator.fails (Validator.first_failure rs v) = true →
  ∃ before r after, rs = before ++ r :: after ∧
    Forall (fun r' => Validator.fails (r' v) = false) before ∧
    Validator.fails (r v) = true ∧
    Validator.first_failure rs v = r v.
Proof.
  induction rs as [|r rs IH]; cbn [Validator.first_failure].
  - intros Hf. by vm_compute in Hf.
  - destruct (Validator.fails (r v)) eqn:Hf.
    + intros _. exists [], r, rs. by split_and!.
    + intros Hrest. destruct (IH Hrest) as (before & r' & after & -> & Hb & Hr & Heq).
      exists (r :: before), r', after. split_and!; try done. by constructor.
Qed.

Ltac decide_all :=
  repeat first
    [ rewrite bool_decide_eq_true_2 by congruence
    | rewrite bool_decide_eq_false_2 by congruence ].

Lemma rules_get_push (field field' : string) (r : Validator.rule)
    (m : list (string * list Validator.rule)) :
  Validator.rules_get field' (Validator.rules_push field r m)
  = if bool_decide (field' = field)
    then (fun rs => rs ++ [r]) <$> Validator.rules_get field m
    else Validator.rules_get field' m.
Proof.
  induction m as [|[f rs] m IH];
    cbn [Validator.rules_push Validator.rules_get].
  - by case_bool_decide.
  - destruct (decide (f = field)), (decide (f = field')),
      (decide (field' = field)); subst; try congruence; decide_all;
      cbn [Validator.rules_get]; decide_all; rewrite ?IH; decide_all; done.
Qed.

Lemma rules_get_app_new (field field' : string)
    (m : list (string * list Validator.rule)) :
  Validator.rules_get field m = None →
  Validator.rules_get field' (m ++ [(field, [])])
  = if bool_decide (field' = field) then Some []
    else Validator.rules_get field' m.
Proof.
  induction m as [|[f rs] m IH]; cbn [app Validator.rules_get].
  - intros _.
    destruct (decide (field' = field)); subst; decide_all; done.
  - destruct (decide (f = field)), (decide (f = field')),
      (decide (field' = field)); subst; try congruence; decide_all;
      try done; intros Hnone; rewrite (IH Hnone); decide_all; done.
Qed.

Lemma rules_after_addRule (field field' : string) (r : Validator.rule)
    (s : Validator.t) :
  default [] (Validator.rules_get field' (Validator.rules (Validator.addRule field r s)))
  = if bool_decide (field' = field)
    then default [] (Validator.rules_get field (Validator.rules s)) ++ [r]
    else default [] (Validator.rules_get field' (Validator.rules s)).
Proof.
  unfold Validator.addRule. cbn [Validator.rules]. rewrite rules_get_push.
  destruct (Validator.rules_get field (Validator.rules s)) as [rs|] eqn:Hg.
  - rewrite Hg. by case_bool_decide.
  - rewrite (rules_get_app_new field field) by done.
    rewrite (bool_decide_eq_true_2 (field = field)) by done.
    case_bool_decide; [done|]. by rewrite rules_get_app_new, bool_decide_eq_false_2.
Qed.

(** X21. [validate(field, value)] runs the rules of the field in the
    order they were added: it returns [{valid: true}] when every rule
    passes (in particular when the field has no rule), and otherwise the
    result of the first rule that fails, the later rules not counting. *)
Theorem validate_first_failure (field : string) (v : value) (s : Validator.t) :
  let fieldRules := default [] (Validator.rules_get field (Validator.rules s)) in
  let result := Validator.validate field v s in
  (Validator.fails result = false ↔
   Forall (fun r => Validator.fails (r v) = false) fieldRules) ∧
  (Validator.fails result = false → result = {[ "valid" := VBool true ]}) ∧
  (Validator.fails result = true →
   ∃ before r after, fieldRules = before ++ r :: after ∧
     Forall (fun r' => Validator.fails (r' v) = false) before ∧
     Validator.fails (r v) = true ∧ result = r v).
Proof.
  intros fieldRules result. subst result. unfold Validator.validate.
  fold fieldRules. split_and!.
  - apply first_failure_passes.
  - intros Hpass. apply first_failure_passes in Hpass.
    induction Hpass as [|r rs Hr Hrs IH]; [done|].
    cbn [Validator.first_failure]. by rewrite Hr.
  - apply first_failure_fails.
Qed.

Lemma validate_first_failure_witness :
  let too_short : Validator.rule := fun v =>
    {[ "valid" := VBool (@Validator.minLength ascii_host v 3);
       "message" := VStr "too short" ]} in
  let no_x : Validator.rule := fun v =>
    {[ "valid" := VBool (negb (@search_match ascii_host PartialSearchStrategy v (VStr "x")));
       "message" := VStr "contains x" ]} in
  let s := Validator.addRule "name" no_x
             (Validator.addRule "name" too_short Validator.new) in
  Validator.validate "name" (VStr "ax") s
    = {[ "valid" := VBool false; "message" := VStr "too short" ]} ∧
  Validator.validate "name" (VStr "Acme") s = {[ "valid" := VBool true ]}.
Proof.
  intros too_short no_x s.
  destruct (validate_first_failure "name" (VStr "Acme") s) as (_ & Hpass & _).
  split; [by vm_compute|]. apply Hpass. by vm_compute.
Defined.

(** X22. Adding a rule to a field leaves the validation of every other
    field as it was, and never turns a failure of that field into a
    success: a value that failed fails with the same result, and a value
    that passed now gets the verdict of the new rule. *)
Theorem addRule_then_validate (field field' : string) (r : Validator.rule)
    (v : value) (s : Validator.t) :
  Validator.validate field' v (Validator.addRule field r s)
  = if bool_decide (field' = field)
    then if Validator.fails (Validator.validate field v s)
         then Validator.validate field v s
         else if Validator.fails (r v) then r v else {[ "valid" := VBool true ]}
    else Validator.validate field' v s.
Proof.
  unfold Validator.validate. rewrite rules_after_addRule.
  case_bool_decide; [|done]. apply first_failure_snoc.
Qed.

Lemma count_digits_length (s : string) : (count_digits s ≤ String.length s)%nat.
Proof.
  induction s as [|c s IH]; cbn; [lia|]. destruct (is_digit c); lia.
Qed.

(** X23. [isValidPhone] returns true exactly for a string made of
    digits, white space, hyphens and parentheses that has at least ten
    digits; such a string has at least ten characters.  Given a number
    whose decimal form passes the character test, the call throws
    instead of returning: numbers have no [replace]. *)
Theorem isValidPhone_accepts `{Host} (phone : value) :
  (Validator.isValidPhone phone = Ok true ↔
   ∃ s, phone = VStr s ∧ string_forallb phone_char s = true ∧
        (10 ≤ count_digits s)%nat) ∧
  (Validator.isValidPhone phone = Ok true →
   (10 ≤ String.length (to_string phone))%nat) ∧
  (∀ z, phone = VNum (Fin z) → number_to_string z ≠ "" →
        string_forallb phone_char (number_to_string z) = true →
        ∃ e, Validator.isValidPhone phone = Throw e).
Proof.
  assert (Hiff : Validator.isValidPhone phone = Ok true ↔
    ∃ s, phone = VStr s ∧ string_forallb phone_char s = true ∧
         (10 ≤ count_digits s)%nat).
  { unfold Validator.isValidPhone. split.
    - destruct (negb _ && _) eqn:Htest; [|done].
      apply andb_true_iff in Htest as [_ Hchars].
      destruct phone as [| |b|n|s]; try done.
      intros [= Hd%bool_decide_eq_true_1]. by exists s.
    - intros (s & -> & Hchars & Hd). cbn [to_string].
      rewrite Hchars. destruct s as [|c s]; [cbn in Hd; lia|].
      cbn [negb andb]. rewrite bool_decide_eq_false_2 by done. cbn.
      by rewrite bool_decide_eq_true_2. }
  split_and!; [done| |].
  - intros (s & -> & _ & Hd)%Hiff. cbn [to_string].
    pose proof (count_digits_length s). lia.
  - intros z -> Hne Hchars. unfold Validator.isValidPhone. cbn [to_string].
    rewrite Hchars, bool_decide_eq_false_2 by done. by eexists.
Qed.

Lemma isValidPhone_accepts_witness :
  @Validator.isValidPhone ascii_host (VStr "(028) 3822-1234") = Ok true ∧
  (∃ e, @Validator.isValidPhone ascii_host (VNum (Fin 2838221234)) = Throw e).
Proof.
  destruct (@isValidPhone_accepts ascii_host (VStr "(028) 3822-1234"))
    as ([_ Hyes] & _ & _).
  destruct (@isValidPhone_accepts ascii_host (VNum (Fin 2838221234)))
    as (_ & _ & Hthrow).
  split.
  - apply Hyes. exists "(028) 3822-1234". split_and!; [done|by vm_compute|].
    apply (bool_decide_unpack _). by vm_compute.
  - apply (Hthrow 2838221234%Z); [done|by vm_compute|by vm_compute].
Defined.

(** ** ThemeManager *)

(** X24. After [setTheme(theme)] the current theme, the stored item and
    the page agree: the theme is [theme], ['vendor_theme'] holds it, and
    the body has the class ['night-mode'] exactly when the theme is
    ['dark'].  [toggleTheme] goes to ['dark'] from ['light'] and to
    ['light'] from anything else, so two toggles give back ['light'] and
    ['dark'] but turn any other theme into ['dark']. *)
Theorem setTheme_and_toggle (theme : string) (st : ThemeManager.state) :
  let st' := ThemeManager.setTheme theme st in
  let current := ThemeManager.getCurrentTheme st in
  ThemeManager.getCurrentTheme st' = theme ∧
  ThemeManager.vendor_theme st'.2 = Some theme ∧
  ThemeManager.night_mode st'.2 = bool_decide (theme = "dark") ∧
  ThemeManager.toggleTheme st
    = ThemeManager.setTheme
        (if bool_decide (current = "light") then "dark" else "light") st ∧
  ThemeManager.getCurrentTheme (ThemeManager.toggleTheme (ThemeManager.toggleTheme st))
    = (if bool_decide (current = "light") then "light" else "dark").
Proof.
  intros st' current. subst st' current. destruct st as [[cur] [stored night]].
  unfold ThemeManager.toggleTheme, ThemeManager.setTheme,
    ThemeManager.applyTheme, ThemeManager.saveTheme,
    ThemeManager.getCurrentTheme. cbn.
  split_and!; try done.
  destruct (decide (cur = "light")) as [->|Hne]; [done|].
  by rewrite (bool_decide_eq_false_2 (cur = "light")) by done.
Qed.

(** X25. The theme survives a reload: a manager constructed after
    [setTheme(theme)] starts with [theme], except that the empty string
    comes back as ['light'], as does a missing item.  The constructor
    reads the stored item only: it does not put the class on the page,
    so after a reload with ['dark'] stored the body has no ['night-mode']
    until [setTheme] or [applyTheme] runs. *)
Theorem theme_persists (theme : string) (st : ThemeManager.state)
    (b : ThemeManager.browser) :
  ThemeManager.getCurrentTheme
    (ThemeManager.new (ThemeManager.setTheme theme st).2)
  = (if bool_decide (theme = "") then "light" else theme) ∧
  (ThemeManager.vendor_theme b = None →
   ThemeManager.getCurrentTheme (ThemeManager.new b) = "light") ∧
  (ThemeManager.new b).2 = b.
Proof.
  split_and!; [|by intros Hnone; cbn; unfold ThemeManager.loadTheme; rewrite Hnone|done].
  destruct st as [[cur] [stored night]]. cbn. unfold ThemeManager.loadTheme. cbn.
  destruct theme as [|c theme]; [done|]. by rewrite bool_decide_eq_false_2.
Qed.

Lemma theme_persists_witness :
  let b := ThemeManager.mk_browser None false in
  ThemeManager.getCurrentTheme (ThemeManager.new b) = "light" ∧
  ThemeManager.night_mode
    (ThemeManager.new (ThemeManager.setTheme "dark" (ThemeManager.new b)).2).2
  = true.
Proof.
  intros b. destruct (theme_persists "dark" (ThemeManager.new b) b) as (_ & Hnone & _).
  split; [by apply Hnone|reflexivity].
Defined.

(** ** [isValidEmail] *)

Lemma string_forallb_app (p : ascii -> bool) (s t : string) :
  string_forallb p (s +:+ t) = string_forallb p s && string_forallb p t.
Proof.
  induction s as [|c s IH]; simpl; [done|]. by rewrite IH, andb_assoc.
Qed.

Lemma string_length_app (s t : string) :
  String.length (s +:+ t) = (String.length s + String.length t)%nat.
Proof. induction s as [|c s IH]; simpl; [done|]. by rewrite IH. Qed.

(** a non-empty string of the class, a dot, a non-empty string of the
    class *)
Definition domain_shape (s : string) : Prop :=
  ∃ b c, s = b +:+ String "."%char c ∧ b ≠ "" ∧ c ≠ "" ∧
         string_forallb email_char b = true ∧ string_forallb email_char c = true.

Lemma match_domain_shape (s : string) :
  match_domain s = true ↔ domain_shape s.
Proof.
  split.
  - induction s as [|ch rest IH]; simpl; [done|].
    intros [Hch [Hdot|Hrest]%orb_true_iff]%andb_true_iff.
    + destruct rest as [|d tld]; [done|].
      destruct (decide (d = "."%char)) as [->|Hd].
      * apply andb_true_iff in Hdot as [Hne%negb_true_iff%bool_decide_eq_false_1 Hall].
        exists (String ch ""), tld. simpl. by rewrite Hch.
      * exfalso. revert Hdot Hd. clear.
        destruct d as [[] [] [] [] [] [] [] []]; done.
    + destruct (IH Hrest) as (b & c & -> & Hb & Hc & Hfb & Hfc).
      exists (String ch b), c. simpl. by rewrite Hch, Hfb.
  - intros (b & c & -> & Hb & Hc & Hfb & Hfc).
    induction b as [|ch b IH]; [done|].
    simpl in Hfb. apply andb_true_iff in Hfb as [Hch Hfb].
    simpl. rewrite Hch. simpl.
    destruct b as [|ch' b'].
    + simpl. unfold match_tld. rewrite Hfc.
      by rewrite (bool_decide_eq_false_2 (c = "")) by done.
    + rewrite IH by done. apply orb_true_r.
Qed.

Lemma match_email_shape (s : string) :
  match_email s = true ↔
  ∃ a d, s = a +:+ String "@"%char d ∧ a ≠ "" ∧
         string_forallb email_char a = true ∧ domain_shape d.
Proof.
  split.
  - induction s as [|ch rest IH]; simpl; [done|].
    intros [Hch [Hat|Hrest]%orb_true_iff]%andb_true_iff.
    + destruct rest as [|d dom]; [done|].
      destruct (decide (d = "@"%char)) as [->|Hd].
      * exists (String ch ""), dom. simpl. rewrite Hch.
        split_and!; try done. by apply match_domain_shape.
      * exfalso. revert Hat Hd. clear.
        destruct d as [[] [] [] [] [] [] [] []]; done.
    + destruct (IH Hrest) as (a & d & -> & Ha & Hfa & Hd).
      exists (String ch a), d. simpl. by rewrite Hch, Hfa.
  - intros (a & d & -> & Ha & Hfa & Hd%match_domain_shape).
    induction a as [|ch a IH]; [done|].
    simpl in Hfa. apply andb_true_iff in Hfa as [Hch Hfa].
    simpl. rewrite Hch. simpl.
    destruct a as [|ch' a'].
    + simpl. by rewrite Hd.
    + rewrite IH by done. apply orb_true_r.
Qed.

Lemma nonempty_length (s : string) : s ≠ "" → (1 ≤ String.length s)%nat.
Proof. destruct s; [done|simpl; lia]. Qed.

Lemma email_char_no_space (s : string) :
  string_forallb email_char s = true →
  string_forallb (λ c, negb (is_space c)) s = true.
Proof.
  induction s as [|c s IH]; simpl; [done|].
  intros [[Hc _]%andb_true_iff Hs]%andb_true_iff. by rewrite Hc, IH.
Qed.

(** X26. [isValidEmail] accepts exactly the values whose string form is
    [local@domain.tld] with the three parts non-empty and free of white
    space and of ['@'].  An accepted address therefore has at least five
    characters and no white space anywhere; the empty string, and any
    string without an ['@'], is rejected. *)
Theorem isValidEmail_shape `{Host} (email : value) :
  (isValidEmail email = true ↔
   ∃ a b c, to_string email = a +:+ String "@"%char (b +:+ String "."%char c) ∧
            a ≠ "" ∧ b ≠ "" ∧ c ≠ "" ∧
            string_forallb email_char a = true ∧
            string_forallb email_char b = true ∧
            string_forallb email_char c = true) ∧
  (isValidEmail email = true →
   (5 ≤ String.length (to_string email))%nat ∧
   string_forallb (λ ch, negb (is_space ch)) (to_string email) = true) ∧
  (string_forallb (λ ch, negb (bool_decide (ch = "@"%char))) (to_string email)
     = true →
   isValidEmail email = false).
Proof.
  assert (Hiff : isValidEmail email = true ↔
   ∃ a b c, to_string email = a +:+ String "@"%char (b +:+ String "."%char c) ∧
            a ≠ "" ∧ b ≠ "" ∧ c ≠ "" ∧
            string_forallb email_char a = true ∧
            string_forallb email_char b = true ∧
            string_forallb email_char c = true).
  { unfold isValidEmail. rewrite match_email_shape. split.
    - intros (a & d & Hs & Ha & Hfa & b & c & -> & Hb & Hc & Hfb & Hfc).
      by exists a, b, c.
    - intros (a & b & c & Hs & Ha & Hb & Hc & Hfa & Hfb & Hfc).
      exists a, (b +:+ String "."%char c). split_and!; try done.
      by exists b, c. }
  split_and!; [done| |].
  - intros (a & b & c & -> & Ha & Hb & Hc & Hfa & Hfb & Hfc)%Hiff. split.
    + rewrite string_length_app. simpl. rewrite string_length_app. simpl.
      apply nonempty_length in Ha, Hb, Hc. lia.
    + rewrite string_forallb_app. simpl. rewrite string_forallb_app. simpl.
      by rewrite !email_char_no_space by done.
  - intros Hno. apply not_true_is_false.
    intros (a & b & c & Hs & _)%Hiff. rewrite Hs in Hno.
    rewrite string_forallb_app in Hno.
    apply andb_true_iff in Hno as [_ Hno]. simpl in Hno. done.
Qed.

Lemma isValidEmail_shape_witness :
  @isValidEmail ascii_host (VStr "test@example.com") = true ∧
  (5 ≤ String.length (@to_string ascii_host (VStr "test@example.com")))%nat ∧
  @isValidEmail ascii_host (VStr "invalid-email") = false.
Proof.
  destruct (@isValidEmail_shape ascii_host (VStr "test@example.com"))
    as ([_ Hyes] & Hlen & _).
  destruct (@isValidEmail_shape ascii_host (VStr "invalid-email"))
    as (_ & _ & Hno).
  assert (Hok : @isValidEmail ascii_host (VStr "test@example.com") = true).
  { apply Hyes. exists "test", "example", "com". by vm_compute. }
  split_and!; [done|by apply Hlen|].
  apply Hno. by vm_compute.
Defined.
